(** * Assistant fiscal : the domain-gated retrieval pipeline and its HTTP boundary

    A shallow embedding of [app.py] (class [PremiumFiscalAssistant]) and of
    [api.py] (endpoint [get_fiscalite]), followed by the properties of the
    specification that concern them.

    Python values are modelled as follows.
    - [str] is a sequence of Unicode code points, so [len], slicing and the
      substring test [in] count code points, as in Python 3.
    - The console, the logger, the Elasticsearch client and the LangChain
      agent are effects: every call to one of them is recorded, in program
      order, in a trace of [event]s.
    - An exception is an [outcome]; [try]/[except] is [try_except].
    - The Elasticsearch client and the agent executor are collaborators.
      They are parameters of the methods that call them, and each of their
      calls may return or raise, an interrupt ([KeyboardInterrupt])
      included.
    - A hit of a search response is a JSON object: a key the code reads may
      be missing, and the score may be null. *)

From Stdlib Require Import NArith QArith Qminmax Strings.String Strings.Ascii.
From stdpp Require Import base list gmap.

Local Open Scope N_scope.

(** ** Python strings *)

Definition str := list N.

(** UTF-8 decoding of the literals of this file: [need] continuation bytes
    are still expected for the code point accumulated in [acc]. *)
Fixpoint utf8_go (bs : list N) (need : nat) (acc : N) : str :=
  match bs with
  | [] => []
  | b :: bs' =>
      if b <? 128 then b :: utf8_go bs' 0%nat 0
      else if b <? 192 then
        let acc' := acc * 64 + (b - 128) in
        match need with
        | 0%nat => utf8_go bs' 0%nat 0
        | 1%nat => acc' :: utf8_go bs' 0%nat 0
        | S n => utf8_go bs' n acc'
        end
      else if b <? 224 then utf8_go bs' 1%nat (b - 192)
      else if b <? 240 then utf8_go bs' 2%nat (b - 224)
      else utf8_go bs' 3%nat (b - 240)
  end.

Definition u (s : string) : str :=
  utf8_go (List.map N_of_ascii (list_ascii_of_string s)) 0%nat 0.
Arguments u s%_string.

(** The newline escape of the source literals. *)
Definition LF : str := [10].

(** [s.startswith(p)] *)
Fixpoint startswith (s p : str) {struct p} : bool :=
  match p, s with
  | [], _ => true
  | _ :: _, [] => false
  | c :: p', d :: s' => (c =? d) && startswith s' p'
  end.

(** [sub in s] on strings: [sub] occurs in [s] as a contiguous run. *)
Fixpoint str_in (sub s : str) : bool :=
  startswith s sub ||
  match s with
  | [] => false
  | _ :: s' => str_in sub s'
  end.

(** [x in l] on a list of strings. *)
Definition list_in (x : str) (l : list str) : bool :=
  existsb (fun y => bool_decide (x = y)) l.

(** [any(p(x) for x in l)] *)
Definition any {A : Type} (p : A → bool) (l : list A) : bool := existsb p l.

(** [str.isspace] on one code point: the characters CPython's
    [_PyUnicode_IsWhitespace] accepts. *)
Definition isspace (c : N) : bool :=
  ((9 <=? c) && (c <=? 13)) || ((28 <=? c) && (c <=? 32))
  || (c =? 133) || (c =? 160) || (c =? 5760)
  || ((8192 <=? c) && (c <=? 8202))
  || (c =? 8232) || (c =? 8233) || (c =? 8239) || (c =? 8287) || (c =? 12288).

Fixpoint lstrip (s : str) : str :=
  match s with
  | [] => []
  | c :: s' => if isspace c then lstrip s' else s
  end.

Definition rstrip (s : str) : str := rev (lstrip (rev s)).

(** [s.strip()] *)
Definition strip (s : str) : str := rstrip (lstrip s).

(** [s.center(width)], as CPython pads: the odd blank goes to the left
    when both the margin and the width are odd. *)
Definition center (s : str) (width : nat) : str :=
  let n := length s in
  if (width <=? n)%nat then s
  else
    let marg := (width - n)%nat in
    let left :=
      (marg / 2 + (if Nat.odd marg && Nat.odd width then 1 else 0))%nat in
    replicate left 32 ++ s ++ replicate (marg - left) 32.

(** [c * n] for a one-character string [c]. *)
Definition str_mul (c : str) (n : nat) : str := concat (replicate n c).

Definition is_ascii_upper (c : N) : bool := (65 <=? c) && (c <=? 90).

(** A string has an upper-case letter of the keyword alphabet. *)
Definition has_upper (s : str) : bool := existsb is_ascii_upper s.

(** [str.lower] on the Basic Latin and Latin-1 Supplement blocks, where the
    Unicode lower-case mapping is a shift by 32 of [A-Z] and of
    U+00C0..U+00DE (the multiplication sign U+00D7 excepted).  It is the
    instance of the [lower] parameter used on concrete inputs, all of which
    lie in these two blocks. *)
Definition lower_cp_latin1 (c : N) : N :=
  if (65 <=? c) && (c <=? 90) then c + 32
  else if (192 <=? c) && (c <=? 222) && negb (c =? 215) then c + 32
  else c.

Definition lower_latin1 (s : str) : str := List.map lower_cp_latin1 s.

(** ** Effects *)

Inductive exn :=
| KeyboardInterrupt
| HTTPException (status_code : N) (detail : str)
| Exception (msg : str).

(** A number in a JSON object: the key may be absent, and the value may be
    null.  A score that is a number is a float; the finite floats are
    rationals, and the code only passes scores along and prints them. *)
Inductive json_number := Absent | Null | Number (q : Q).

(** One hit of a search response, [{"_score": ..., "_source": {"question":
    ..., "reponse": ...}}], with the keys the code reads.  [None] is a
    missing key. *)
Record Source := { question : option str; reponse : option str }.
Record Hit := { _score : json_number; _source : option Source }.

(** The body of the search request of [_get_contextual_results]: a [bool]
    query with one [multi_match] clause under [must], and a size. *)
Record search_request := {
  index : str;
  multi_match_query : str;
  multi_match_fields : list str;
  multi_match_type : str;
  size : nat
}.

(** What [es.search] does: it raises, or answers with the list under
    [hits.hits] (empty when absent). *)
Inductive search_result :=
| SearchRaised (e : exn)
| SearchHits (hits : list Hit).

Definition Elasticsearch := search_request → search_result.

(** [isinstance(e, Exception)]: [KeyboardInterrupt] derives from
    [BaseException] only. *)
Definition is_Exception (e : exn) : bool :=
  match e with
  | KeyboardInterrupt => false
  | HTTPException _ _ | Exception _ => true
  end.

(** [str(e)] *)
Definition exn_str (e : exn) : str :=
  match e with
  | KeyboardInterrupt => []
  | HTTPException _ detail => detail
  | Exception msg => msg
  end.

Inductive event :=
| EvSearch (req : search_request)            (* self.es.search(...) *)
| EvPrint (text : str)                       (* print(text) *)
| EvPrintHit (rank : nat) (score : Q) (q : str)
    (* print(f"{rank}. Score: {score:.2f} | Question: {q}") *)
| EvInput (prompt : str)                     (* input(prompt) *)
| EvLog (text : str)                         (* logger.info(text) *)
| EvAgent (input : str)                      (* the agent executor is called *)
| EvTool (name input : str).                 (* the agent calls a tool *)

Inductive outcome (A : Type) :=
| Return (a : A)
| Raise (e : exn).
Arguments Return {A} a.
Arguments Raise {A} e.

(** A computation that writes to the trace and returns or raises. *)
Definition io (A : Type) : Type := list event * outcome A.

Definition io_ret {A} (a : A) : io A := ([], Return a).
Definition io_raise {A} (e : exn) : io A := ([], Raise e).
Definition io_emit (ev : event) : io unit := ([ev], Return tt).

(** The result of a call that writes nothing to the trace. *)
Definition io_call {A : Type} (r : outcome A) : io A := ([], r).

Definition io_bind {A B} (c : io A) (k : A → io B) : io B :=
  match c with
  | (tr, Return a) => let '(tr', r) := k a in (tr ++ tr', r)
  | (tr, Raise e) => (tr, Raise e)
  end.

(** [try: c  except Exception as e: handler(e)] *)
Definition try_except {A} (c : io A) (handler : exn → io A) : io A :=
  match c with
  | (tr, Raise e) =>
      if is_Exception e then let '(tr', r) := handler e in (tr ++ tr', r)
      else (tr, Raise e)
  | ok => ok
  end.

Global Instance io_mret : MRet io := @io_ret.
Global Instance io_mbind : MBind io := fun A B k c => io_bind c k.

Definition print (text : str) : io unit := io_emit (EvPrint text).

(** [for i, x in enumerate(l): body(i, x)], counting from [i]. *)
Fixpoint for_enumerate {A} (i : nat) (l : list A) (body : nat → A → io unit)
  : io unit :=
  match l with
  | [] => io_ret tt
  | x :: l' => body i x ;; for_enumerate (S i) l' body
  end.

(** ** Reading a hit *)

(** [str(KeyError(key))] is the key between quotes. *)
Definition KeyError (key : str) : exn := Exception (u "'" ++ key ++ u "'").

(** [hit['_score']]: the number, [None] for null. *)
Definition get_score (hit : Hit) : io (option Q) :=
  match _score hit with
  | Absent => io_raise (KeyError (u "_score"))
  | Null => io_ret None
  | Number q => io_ret (Some q)
  end.

(** [hit['_source']] *)
Definition get_source (hit : Hit) : io Source :=
  match _source hit with
  | None => io_raise (KeyError (u "_source"))
  | Some source => io_ret source
  end.

(** [source['reponse']] *)
Definition get_reponse (source : Source) : io str :=
  match reponse source with
  | None => io_raise (KeyError (u "reponse"))
  | Some text => io_ret text
  end.

(** [source['question']] *)
Definition get_question (source : Source) : io str :=
  match question source with
  | None => io_raise (KeyError (u "question"))
  | Some text => io_ret text
  end.

(** The replacement field [{x:.2f}] of an f-string: the number that gets
    formatted; [None] does not take the format (a [TypeError]). *)
Definition format_2f (x : option Q) : io Q :=
  match x with
  | Some q => io_ret q
  | None =>
      io_raise (Exception (u "unsupported format string passed to NoneType.__format__"))
  end.

(** [hit['_source']['reponse']], the element of the list of responses. *)
Definition read_answer (hit : Hit) : io str :=
  source ← get_source hit;
  get_reponse source.

(** [print(f"{i+1}. Score: {hit['_score']:.2f} | Question:
    {hit['_source']['question']}")]: the fields are read and formatted from
    left to right, then the line is printed. *)
Definition print_hit (i : nat) (hit : Hit) : io unit :=
  score ← get_score hit;
  shown ← format_2f score;
  source ← get_source hit;
  text ← get_question source;
  io_emit (EvPrintHit (i + 1) shown text).

(** ** [app.py]: class [PremiumFiscalAssistant] *)

(** The object.  [es] is [None] when [_init_elasticsearch] failed; [agent]
    is the executor built by [_init_agent], with its conversation memory.
    The embedder and the LLM handle are not read by any method below. *)
Record PremiumFiscalAssistant (Agent : Type) := {
  es : option Elasticsearch;
  agent : Agent;
  response_cache : gmap str str;
  last_query : option str
}.
Arguments es {Agent} _.
Arguments agent {Agent} _.
Arguments response_cache {Agent} _.
Arguments last_query {Agent} _.

(** [self.es.search(index=..., body=...)] *)
Definition es_search {Agent} (self : PremiumFiscalAssistant Agent)
    (req : search_request) : io (list Hit) :=
  match es self with
  | None => io_raise (Exception (u "'NoneType' object has no attribute 'search'"))
  | Some client =>
      io_emit (EvSearch req) ;;
      match client req with
      | SearchRaised e => io_raise e
      | SearchHits hits => io_ret hits
      end
  end.

Definition contextual_request (query : str) : search_request :=
  {| index := u "assistant_fiscal_v2";
     multi_match_query := query;
     multi_match_fields := [u "question^3"; u "reponse^2"; u "tags"];
     multi_match_type := u "best_fields";
     size := 3 |}.

(** The score it returns is a Python value: a number, or [None] for a null
    score. *)
Definition _get_contextual_results {Agent} (self : PremiumFiscalAssistant Agent)
    (query : str) : io (list str * option Q) :=
  try_except
    (hits ← es_search self (contextual_request query);
     match hits with
     | [] => io_ret ([], Some 0%Q)
     | hit0 :: _ =>
         best_score ← get_score hit0;
         responses ← mapM read_answer hits;
         print (LF ++ u "🔍 Résultats de recherche :") ;;
         for_enumerate 0 (take 3 hits) print_hit ;;
         io_ret (responses, best_score)
     end)
    (fun e =>
       print (u "⚠️ Erreur recherche Elasticsearch: " ++ exn_str e) ;;
       io_ret ([], Some 0%Q)).

Definition _gerer_salutation : str :=
  u "💼 Bonjour ! Assistant fiscal sénégalais à votre service. Posez-moi vos questions sur les impôts et taxes.".

(** The list of the source.  Two commas are missing there, so Python joins
    the adjacent literals: "réouverture" with "taxe sur la valeur ajoutée",
    and "acte" with "titre". *)
Definition mots_cles_fiscaux : list str := [
  u "impôt"; u "impot"; u "taxe"; u "TVA"; u "CFPNB"; u "cfpnb"; u "pv"; u "PV"; u "PME"; u "quitus"; u "PCF"; u "fiscalité"; u "déclaration"; u "CGU"; u "Patente"; u "récapitulatifs";
  u "exonération"; u "remboursement"; u "trop perçu"; u "délai"; u "quitus fiscal "; u "délai de paiement"; u "quittance"; u "récépissé"; u "revenus"; u "formalisation";
  u "contribution"; u "taxation"; u "droit d'enregistrement"; u "droits d'enregistrement"; u "taxes d'enregistrement"; u "entreprise"; u "changement de statuts";
  u "taxes sur les salaires"; u "taxe sur les salaires"; u "taxe foncière"; u "taxe professionnelle"; u "NINEA"; u "direct"; u "indirect"; u "réouverture" ++
  u "taxe sur la valeur ajoutée"; u "tva"; u "passeport"; u "taxe sur les boissons"; u "réductions"; u "immatriculation"; u "propriétaire"; u "compte"; u "duplicata";
  u "IR"; u "IS"; u "patente"; u "douane"; u "régime fiscal"; u "code général des impôts"; u "procédure"; u "acte administratif"; u "exonérations";
  u "obligation fiscale"; u "penalité"; u "amende"; u "contrôle fiscal"; u "démarrage des activités"; u "homologation"; u "acte" ++
  u "titre"; u "SIGTAS"; u "imposition"; u "bail"; u "foncier bâti "; u "foncier non bâti"; u "TEOM"; u "vvérification"
].

Definition salutations : list str :=
  [u "bonjour"; u "salut"; u "hello"; u "bonsoir"; u "coucou"; u "hi"; u "salam"].

Definition refus_hors_domaine : str :=
  u "⚠️ Je suis un assistant spécialisé exclusivement en fiscalité sénégalaise." ++ LF.

Definition aucune_information : str :=
  u "🔍 Je n'ai pas trouvé d'information précise dans ma base fiscale. " ++
  u "Consultez le site officiel : www.impotsetdomaines.gouv.sn" ++ LF.

(** What one call of the agent executor gives: the output, an [Exception]
    with its text, or an interrupt (Ctrl-C while the agent works). *)
Inductive agent_result :=
| AgentOutput (output : str)
| AgentFailed (msg : str)
| AgentInterrupted.

(** How one pass through the body of [while True] ends. *)
Inductive loop_ctl := Break | Continue.

Inductive run_status := Finished | Waiting.

(** The JSON object an endpoint returns. *)
Record reply := { message : str }.

Section Methods.

(** [str.lower]: the Unicode lower-casing of the Python runtime. *)
Variable lower : str → str.

Context {Agent : Type}.

Definition recherche_fiscale (self : PremiumFiscalAssistant Agent)
    (query : str) : io str :=
  let query_lower := lower query in
  if any (fun salut => str_in salut query_lower) salutations then
    io_ret _gerer_salutation
  else if negb (any (fun mot => str_in mot query_lower) mots_cles_fiscaux) then
    io_ret refus_hors_domaine
  else
    '(responses, score) ← _get_contextual_results self query;
    match responses with
    | [] => io_ret aucune_information
    | r0 :: _ => io_ret r0
    end.

(** *** Methods that update the object

    A method gets [self], writes to the trace, leaves [self] updated, and
    returns or raises; what it did to [self] before raising stays done. *)
Definition method (A : Type) : Type :=
  PremiumFiscalAssistant Agent →
  list event * PremiumFiscalAssistant Agent * outcome A.

Definition method_ret {A} (a : A) : method A := fun self => ([], self, Return a).

Definition method_bind {A B} (c : method A) (k : A → method B) : method B :=
  fun self =>
    match c self with
    | (tr, self', Return a) =>
        let '(tr', self'', r) := k a self' in (tr ++ tr', self'', r)
    | (tr, self', Raise e) => (tr, self', Raise e)
    end.

Global Instance method_mret : MRet method := @method_ret.
Global Instance method_mbind : MBind method := fun A B k c => method_bind c k.

Definition lift {A} (c : io A) : method A :=
  fun self => let '(tr, r) := c in (tr, self, r).

Definition raise {A} (e : exn) : method A := lift (io_raise e).

(** [try: body  except KeyboardInterrupt: on_interrupt
                except Exception as e: on_exception(e)] *)
Definition try_except_2 {A} (body : method A) (on_interrupt : method A)
    (on_exception : exn → method A) : method A :=
  fun self =>
    match body self with
    | (tr, self', Raise e) =>
        let handler :=
          match e with
          | KeyboardInterrupt => on_interrupt
          | _ => on_exception e
          end in
        let '(tr', self'', r) := handler self' in (tr ++ tr', self'', r)
    | ok => ok
    end.

Definition vider_cache : method unit :=
  fun self =>
    ([EvPrint (u "🗑️ Cache vidé avec succès !")],
     {| es := es self; agent := agent self;
        response_cache := ∅;            (* self.response_cache.clear() *)
        last_query := last_query self |},
     Return tt).

(** The agent executor, [self.agent]: one call runs a whole turn.  It may
    use its tool and the LLM (the events it returns), it updates its own
    memory, and it gives the final output or raises. *)
Variable agent_call : Agent → str → list event * Agent * agent_result.

(** [self.agent.invoke({"input": input})['output']] and
    [assistant.agent.run(input)]. *)
Definition agent_invoke (input : str) : method str :=
  fun self =>
    let '(tr, agent', r) := agent_call (agent self) input in
    (EvAgent input :: tr,
     {| es := es self; agent := agent';
        response_cache := response_cache self;
        last_query := last_query self |},
     match r with
     | AgentOutput output => Return output
     | AgentFailed msg => Raise (Exception msg)
     | AgentInterrupted => Raise KeyboardInterrupt
     end).

(** One pass through the body of [while True]; [line] is what [input()]
    does this time: it returns the line typed, or raises
    ([KeyboardInterrupt] on Ctrl-C, [EOFError] at the end of input). *)
Definition run_body (line : outcome str) : method loop_ctl :=
  raw ← lift ([EvInput (LF ++ u "Votre question fiscale : ")], line);
  let user_input := strip raw in
  if list_in (lower user_input) [u "exit"; u "quit"; u "q"] then
    lift (print (LF ++ u "Merci pour votre confiance. À bientôt !")) ;;
    mret Break
  else if list_in (lower user_input) [u "vider cache"; u "reset"] then
    vider_cache ;;
    lift (print (u "🗑️ Cache vidé avec succès !")) ;;
    mret Continue
  else
    let salutations :=
      [u "bonjour"; u "salut"; u "hello"; u "bonsoir"; u "coucou"; u "hi"; u "salam"] in
    if any (fun salut => str_in salut (lower user_input)) salutations then
      lift (print (LF ++ _gerer_salutation)) ;;
      mret Continue
    else
      lift (print (LF ++ u "🔍 Consultation de la base fiscale...")) ;;
      output ← agent_invoke user_input;
      lift (print (LF ++ u "📌 Réponse :" ++ u " " ++ output)) ;;
      mret Continue.

Definition run_iteration (line : outcome str) : method loop_ctl :=
  try_except_2 (run_body line)
    (lift (print (LF ++ LF ++ u "Merci d'avoir utilisé l'Assistant Fiscal Premium. Au revoir !")) ;;
     mret Break)
    (fun e =>
       lift (print (LF ++ u "⚠️ Une erreur est survenue : " ++ exn_str e)) ;;
       lift (print (u "Veuillez reformuler votre question ou contacter le support technique.")) ;;
       vider_cache ;;
       mret Continue).

(** The loop, on the finite script of what the successive [input()] calls
    do.  It has [Finished] when a [break] was reached, and is [Waiting]
    for input when the script is used up. *)
Fixpoint run_loop (script : list (outcome str)) : method run_status :=
  match script with
  | [] => mret Waiting
  | line :: script' =>
      ctl ← run_iteration line;
      match ctl with
      | Break => mret Finished
      | Continue => run_loop script'
      end
  end.

Definition run (script : list (outcome str)) : method run_status :=
  lift (print (LF ++ str_mul (u "=") 50)) ;;
  lift (print (center (u "ASSISTANT FISCAL PREMIUM - SÉNÉGAL ") 50)) ;;
  lift (print (str_mul (u "=") 50)) ;;
  lift (print _gerer_salutation) ;;
  run_loop script.

(** ** [api.py]: the endpoint [GET /fiscalite] *)

(** Truth value of an optional header: [None] and the empty string are
    false. *)
Definition truthy (x : option str) : bool :=
  match x with
  | None | Some [] => false
  | Some (_ :: _) => true
  end.

Definition API_KEY : str := u "ma-cle-secrete".

(** The handler, on the module's global [assistant]. *)
Definition get_fiscalite (question : str) (x_api_key : option str)
  : method reply :=
  if truthy x_api_key && negb (bool_decide (x_api_key = Some API_KEY)) then
    raise (HTTPException 403 (u "Accès non autorisé. Clé invalide."))
  else if bool_decide (strip question = []) || (length question <? 3)%nat then
    mret {| message := u "❌ Veuillez poser une question fiscale plus précise." |}
  else
    lift (io_emit (EvLog (u "[QUESTION] " ++ question))) ;;
    response ← agent_invoke question;
    lift (io_emit (EvLog (u "[RÉPONSE] " ++ response))) ;;
    mret {| message := response |}.

End Methods.

(** ** A reference search service

    The engine sends the size it wants and relies on the service for the
    number and the order of the hits. *)

(** A reference service over a corpus: every document is scored against
    the request, the documents that match (positive score) are ranked by
    insertion, and the first [size] are returned. *)
Record Doc := { doc_question : str; doc_reponse : str; doc_tags : list str }.

Fixpoint insert_scored (d : Q * Doc) (l : list (Q * Doc)) : list (Q * Doc) :=
  match l with
  | [] => [d]
  | d' :: l' =>
      if Qle_bool d'.1 d.1 then d :: l
      else d' :: insert_scored d l'
  end.

Definition rank (l : list (Q * Doc)) : list (Q * Doc) := foldr insert_scored [] l.

Definition hit_of (d : Q * Doc) : Hit :=
  {| _score := Number d.1;
     _source := Some {| question := Some (doc_question d.2);
                        reponse := Some (doc_reponse d.2) |} |}.

Definition es_index (corpus : list Doc)
    (scorer : search_request → Doc → Q) : Elasticsearch :=
  fun req =>
    let scored := List.map (fun d => (scorer req d, d)) corpus in
    let matching := List.filter (fun d => negb (Qle_bool d.1 0)) scored in
    SearchHits (hit_of <$> take (size req) (rank matching)).

(** A [best_fields] scorer with the boosts of the request: a field counts
    when it contains the lower-cased query, and the best field wins. *)
Definition boost_scorer (req : search_request) (d : Doc) : Q :=
  let q := lower_latin1 (multi_match_query req) in
  let hit_in (field : str) (boost : Q) : Q :=
    if str_in q (lower_latin1 field) then boost else 0%Q in
  Qmax (hit_in (doc_question d) 3%Q)
       (Qmax (hit_in (doc_reponse d) 2%Q)
             (if any (fun t => str_in q (lower_latin1 t)) (doc_tags d) then 1%Q else 0%Q)).

(** ** The agent executor

    [_init_agent] hands the tool, the memory and the two limits to
    LangChain's [initialize_agent]; the loop that uses them is LangChain's. *)

Record Tool := { name : str; func : str → io str; description : str }.

Inductive role := user | assistant.
Record turn := { speaker : role; content : str }.
Definition ConversationMemory := list turn.

(** How a turn ends when the iteration cap is reached: by generating an
    answer, or by raising an error. *)
Inductive stopping_method := generate | error.

Record AgentExecutor := {
  tool : Tool;
  memory : ConversationMemory;
  max_iterations : nat;
  early_stopping_method : stopping_method;
  system_message : str
}.

Section Agent.

Variable lower : str → str.

Definition _init_agent {Agent} (self : PremiumFiscalAssistant Agent)
  : AgentExecutor :=
  let fiscal_tool :=
    {| name := u "BaseFiscalePremium";
       func := recherche_fiscale lower self;
       description := u "Base de connaissances sur la fiscalité sénégalaise" |} in
  {| tool := fiscal_tool;
     memory := [];
     max_iterations := 4;
     early_stopping_method := generate;
     system_message :=
       LF ++ u "Vous êtes un expert fiscal sénégalais. Répondez de manière précise et structurée :" ++
       LF ++ u "1. Donnez des réponses factuelles basées sur la réglementation" ++
       LF ++ u "2. Citez vos sources quand c'est possible" ++
       LF ++ u "3. Pour les questions hors sujet, redirigez vers www.impotsetdomaines.gouv.sn" ++
       LF ++ u "                " |}.

(** [__init__], given what [_init_elasticsearch] returned.  The agent is
    built on the object as it is at that point: the client is set, the
    cache is not yet. *)
Definition __init__ (es0 : option Elasticsearch)
  : PremiumFiscalAssistant AgentExecutor :=
  let self0 :=
    {| es := es0; agent := tt; response_cache := ∅; last_query := None |} in
  {| es := es0;
     agent := _init_agent self0;
     response_cache := ∅;
     last_query := None |}.

End Agent.

(** Modelled from the spec: the loop of the agent executor, which is
    LangChain's and not in this repository.  It is the state machine of the
    Conversational Orchestrator: Reasoning decides to call the tool or to
    conclude; ToolInvocation runs the tool on one free-text argument and
    hands its text back as an observation; the cycle is bounded by
    [max_iterations]; at the cap the answer is synthesized from the
    observations gathered; the input and the final output are then appended
    to the memory.  The language model is a port with these two
    capabilities; it is an upstream service, and a call of it that fails
    goes up to the caller of the turn. *)
Inductive action :=
| CallTool (tool_input : str)
| Conclude (answer : str).

Definition observations := list (str * str).

Record LanguageModel := {
  next_action : str → ConversationMemory → str → observations → outcome action;
  synthesize : str → ConversationMemory → str → observations → outcome str
}.

Section Orchestrator.

Variable llm : LanguageModel.
Variable ex : AgentExecutor.
Variable input : str.

Fixpoint reasoning_cycle (budget : nat) (obs : observations) : io str :=
  match budget with
  | O =>
      match early_stopping_method ex with
      | generate =>
          io_call (synthesize llm (system_message ex) (memory ex) input obs)
      | error =>
          io_raise (Exception (u "Agent stopped due to iteration limit."))
      end
  | S budget' =>
      step ← io_call (next_action llm (system_message ex) (memory ex) input obs);
      match step with
      | Conclude answer => mret answer
      | CallTool tool_input =>
          io_emit (EvTool (name (tool ex)) tool_input) ;;
          observation ← func (tool ex) tool_input;
          reasoning_cycle budget' (obs ++ [(tool_input, observation)])
      end
  end.

Definition executor_call : list event * AgentExecutor * agent_result :=
  match reasoning_cycle (max_iterations ex) [] with
  | (tr, Return output) =>
      (tr,
       {| tool := tool ex;
          memory := memory ex ++ [ {| speaker := user; content := input |};
                                   {| speaker := assistant; content := output |} ];
          max_iterations := max_iterations ex;
          early_stopping_method := early_stopping_method ex;
          system_message := system_message ex |},
       AgentOutput output)
  | (tr, Raise KeyboardInterrupt) => (tr, ex, AgentInterrupted)
  | (tr, Raise e) => (tr, ex, AgentFailed (exn_str e))
  end.

End Orchestrator.

(** The number of tool invocations in a trace. *)
Definition tool_calls (tr : list event) : nat :=
  length (List.filter (fun ev => match ev with EvTool _ _ => true | _ => false end) tr).

(** The number of calls of the agent executor in a trace. *)
Definition agent_calls (tr : list event) : nat :=
  length (List.filter (fun ev => match ev with EvAgent _ => true | _ => false end) tr).

(** The number of search requests in a trace. *)
Definition searches (tr : list event) : nat :=
  length (List.filter (fun ev => match ev with EvSearch _ => true | _ => false end) tr).

(** The characters of a string that are not white space. *)
Definition non_whitespace (s : str) : str :=
  List.filter (fun c => negb (isspace c)) s.

(** ** Vocabulary of the properties *)

(** [sub] occurs in [s] as a substring. *)
Definition occurs_in (sub s : str) : Prop := ∃ pre post, s = pre ++ sub ++ post.

(** [s] contains one of the [tokens]. *)
Definition has_token (tokens : list str) (s : str) : Prop :=
  ∃ t, t ∈ tokens ∧ occurs_in t s.

(** What the underlying search call does for [query].  It raises an
    [Exception]: there is no client (an [AttributeError]), or the service
    fails. *)
Definition search_raises {Agent} (self : PremiumFiscalAssistant Agent)
    (query : str) : Prop :=
  es self = None ∨
  ∃ client e, es self = Some client ∧
              client (contextual_request query) = SearchRaised e ∧
              is_Exception e = true.

(** It is interrupted: what is raised is no [Exception]. *)
Definition search_interrupted {Agent} (self : PremiumFiscalAssistant Agent)
    (query : str) (e : exn) : Prop :=
  ∃ client, es self = Some client ∧
            client (contextual_request query) = SearchRaised e ∧
            is_Exception e = false.

Definition search_answers {Agent} (self : PremiumFiscalAssistant Agent)
    (query : str) (hits : list Hit) : Prop :=
  ∃ client, es self = Some client ∧
            client (contextual_request query) = SearchHits hits.

(** The candidate set of a query: the hits of the search, none when the
    search raises. *)
Definition candidates {Agent} (self : PremiumFiscalAssistant Agent)
    (query : str) : list Hit :=
  match es self with
  | Some client =>
      match client (contextual_request query) with
      | SearchHits hits => hits
      | SearchRaised _ => []
      end
  | None => []
  end.

(** The answer stored with a hit, when the hit has one. *)
Definition answer_of (hit : Hit) : option str :=
  source ← _source hit; reponse source.

(** What the line printed for a hit shows, when the hit has it all: a score
    that is a number, and a question. *)
Definition printed_of (hit : Hit) : option (Q * str) :=
  match _score hit with
  | Number q => source ← _source hit; text ← question source; Some (q, text)
  | Absent | Null => None
  end.

(** The hits of a response can be read: each has an answer, and each of the
    first three can be printed.  What is read then is the answers of all
    the hits and the lines of the first three. *)
Definition parsed (hits : list Hit) : option (list str * list (Q * str)) :=
  answers ← mapM answer_of hits;
  lines ← mapM printed_of (take 3 hits);
  Some (answers, lines).

(** The line of the console for the [i]-th printed hit, from 0. *)
Definition hit_line (i : nat) (line : Q * str) : event :=
  EvPrintHit (i + 1) line.1 line.2.

(** The error line of the engine. *)
Definition search_error_line (text : str) : event :=
  EvPrint (u "⚠️ Erreur recherche Elasticsearch: " ++ text).

(** What the engine prints after the request: the header, lines of hits,
    the error line. *)
Definition engine_print (ev : event) : Prop :=
  (∃ text, ev = EvPrint text) ∨ (∃ j line, ev = hit_line j line).

Section Classification.

Variable lower : str → str.

Definition greets (query : str) : Prop := has_token salutations (lower query).

Definition in_domain (query : str) : Prop :=
  ¬ has_token salutations (lower query) ∧
  has_token mots_cles_fiscaux (lower query).

Definition out_of_domain (query : str) : Prop :=
  ¬ has_token salutations (lower query) ∧
  ¬ has_token mots_cles_fiscaux (lower query).

End Classification.

(** The reply of the endpoint to a question it does not pass on. *)
Definition question_trop_courte : reply :=
  {| message := u "❌ Veuillez poser une question fiscale plus précise." |}.

(** The request is answered with the authorization failure. *)
Definition forbidden {A} (r : outcome A) : Prop :=
  ∃ detail, r = Raise (HTTPException 403 detail).

(** The object with another cache. *)
Definition with_cache {Agent : Type} (cache : gmap str str)
    (self : PremiumFiscalAssistant Agent) : PremiumFiscalAssistant Agent :=
  {| es := es self; agent := agent self;
     response_cache := cache; last_query := last_query self |}.

(** How a turn of the agent ends, by how its reasoning cycle ends: with
    an output, interrupted from the keyboard, or failed. *)
Definition agent_result_of (r : outcome str) : agent_result :=
  match r with
  | Return output => AgentOutput output
  | Raise KeyboardInterrupt => AgentInterrupted
  | Raise e => AgentFailed (exn_str e)
  end.

(** The executor with another memory. *)
Definition with_memory (mem : ConversationMemory) (ex : AgentExecutor)
  : AgentExecutor :=
  {| tool := tool ex; memory := mem;
     max_iterations := max_iterations ex;
     early_stopping_method := early_stopping_method ex;
     system_message := system_message ex |}.

(** ** Concrete instances *)

Definition corpus_demo : list Doc := [
  {| doc_question := u "délai déclaration TVA";
     doc_reponse := u "30 jours";
     doc_tags := [u "tva"; u "délai"] |};
  {| doc_question := u "Comment obtenir un quitus fiscal ?";
     doc_reponse := u "Déposez une demande au centre des services fiscaux ; la TVA doit être à jour.";
     doc_tags := [u "quitus"] |};
  {| doc_question := u "Qu'est-ce que la patente ?";
     doc_reponse := u "Une contribution locale.";
     doc_tags := [u "patente"; u "tva"] |};
  {| doc_question := u "Taux de TVA";
     doc_reponse := u "18 %";
     doc_tags := [] |};
  {| doc_question := u "Passeport";
     doc_reponse := u "Timbre fiscal.";
     doc_tags := [] |}
].

Definition es_demo : Elasticsearch := es_index corpus_demo boost_scorer.

(** A language model that looks the input up once and repeats what the
    tool said. *)
Definition llm_lookup_once : LanguageModel :=
  {| next_action := fun _ _ input obs =>
       match obs with
       | [] => Return (CallTool input)
       | (_, observation) :: _ => Return (Conclude observation)
       end;
     synthesize := fun _ _ _ _ => Return (u "Consultez www.impotsetdomaines.gouv.sn") |}.

(** A language model that never concludes. *)
Definition llm_never_concludes : LanguageModel :=
  {| next_action := fun _ _ input _ => Return (CallTool input);
     synthesize := fun _ _ _ obs =>
       match obs with
       | [] => Return (u "Consultez www.impotsetdomaines.gouv.sn")
       | (_, observation) :: _ =>
           Return (u "D'après la base fiscale : " ++ observation)
       end |}.

(** A language model that never concludes and has nothing to say at the
    end. *)
Definition llm_silent : LanguageModel :=
  {| next_action := fun _ _ input _ => Return (CallTool input);
     synthesize := fun _ _ _ _ => Return [] |}.

(** A language model that never concludes and is unavailable at the end. *)
Definition llm_gone_at_the_end : LanguageModel :=
  {| next_action := fun _ _ input _ => Return (CallTool input);
     synthesize := fun _ _ _ _ => Raise (Exception (u "Service unavailable")) |}.

Definition assistant_demo : PremiumFiscalAssistant AgentExecutor :=
  __init__ lower_latin1 (Some es_demo).

(** The assistant whose connection to Elasticsearch failed at start. *)
Definition assistant_offline : PremiumFiscalAssistant AgentExecutor :=
  __init__ lower_latin1 None.

(** The assistant over an empty index. *)
Definition assistant_empty_index : PremiumFiscalAssistant AgentExecutor :=
  __init__ lower_latin1 (Some (es_index [] boost_scorer)).

(** A service whose best hit for every request is the one of the VAT
    scenario. *)
Definition hit_delai_tva : Hit :=
  {| _score := Number 12;
     _source := Some {| question := Some (u "délai déclaration TVA");
                        reponse := Some (u "30 jours") |} |}.

Definition hit_taux_tva : Hit :=
  {| _score := Number (7 # 2);
     _source := Some {| question := Some (u "Taux de TVA");
                        reponse := Some (u "18 %") |} |}.

(** A document indexed without its question. *)
Definition hit_without_question : Hit :=
  {| _score := Number 2;
     _source := Some {| question := None; reponse := Some (u "18 %") |} |}.

Definition es_scenario : Elasticsearch :=
  fun req => SearchHits (take (size req) [hit_delai_tva; hit_taux_tva]).

Definition assistant_scenario : PremiumFiscalAssistant AgentExecutor :=
  __init__ lower_latin1 (Some es_scenario).

(** A session at the console: the same question, twice. *)
Definition session_tva_twice :=
  run lower_latin1 (executor_call llm_lookup_once)
    [Return (u "tva"); Return (u "tva")] assistant_demo.

(** A request with a question of two letters around a blank, without key. *)
Definition request_a_b :=
  get_fiscalite (executor_call llm_lookup_once) (u "a b") None assistant_demo.

(** A request with an empty key. *)
Definition request_empty_key :=
  get_fiscalite (executor_call llm_lookup_once) (u "tva") (Some []) assistant_demo.

(** ** [app.py]: [_init_elasticsearch] and the constructor *)

(** The client object, by what its calls do: [es.ping()],
    [es.indices.exists(index=...)] and [es.search(...)]. *)
Record es_client := {
  ping : outcome bool;
  indices_exists : str → outcome bool;
  search : Elasticsearch
}.

(** [new_client] is what the constructor [Elasticsearch(hosts=..., ...)]
    does with the settings of the environment: it gives the client or
    raises. *)
Definition _init_elasticsearch (new_client : outcome es_client)
  : io (option Elasticsearch) :=
  try_except
    (es ← io_call new_client;
     alive ← io_call (ping es);
     if negb alive then
       io_raise (Exception (u "❌ Impossible de se connecter à Elasticsearch"))
     else
       present ← io_call (indices_exists es (u "assistant_fiscal_v2"));
       (if negb present then
          print (u "⚠️ L'index 'assistant_fiscal_v2' n'existe pas. Créez-le avec le mapping approprié.")
        else mret tt) ;;
       print (u "✅ Connexion Elasticsearch établie") ;;
       mret (Some (search es)))
    (fun e =>
       print (u "⚠️ Erreur Elasticsearch : " ++ exn_str e) ;;
       mret None).

(** What [_init_elasticsearch] makes of an exception raised on its way: an
    [Exception] is printed and turned into [None], anything else goes
    through. *)
Definition connection_failure (e : exn) : io (option Elasticsearch) :=
  if is_Exception e then
    ([EvPrint (u "⚠️ Erreur Elasticsearch : " ++ exn_str e)], Return None)
  else ([], Raise e).

(** [_init_embedder] and [_init_llm] each build an object of an external
    library ([SentenceTransformer(...)], [ChatGroq(...)]), which gives the
    object or raises; neither guards the call.  No method reads the two
    objects, so they are not kept here. *)
Definition _init_embedder (new_embedder : outcome unit) : io unit :=
  io_call new_embedder.

Definition _init_llm (new_llm : outcome unit) : io unit :=
  io_call new_llm.

(** [PremiumFiscalAssistant()]: the connection, the embedder, the LLM, and
    then the object with its agent. *)
Definition new_assistant (lower : str → str) (new_client : outcome es_client)
    (new_embedder new_llm : outcome unit)
  : io (PremiumFiscalAssistant AgentExecutor) :=
  es0 ← _init_elasticsearch new_client;
  _init_embedder new_embedder ;;
  _init_llm new_llm ;;
  mret (__init__ lower es0).

(** ** Vocabulary of the console loop *)

(** The line ends the session by itself: an exit command, or Ctrl-C at the
    prompt. *)
Definition ends_session (lower : str → str) (line : outcome str) : bool :=
  match line with
  | Return raw => list_in (lower (strip raw)) [u "exit"; u "quit"; u "q"]
  | Raise KeyboardInterrupt => true
  | Raise _ => false
  end.

(** What the agent is asked on a line, if anything: the line without its
    surrounding blanks, unless it is a command or a greeting. *)
Definition consults (lower : str → str) (line : outcome str) : option str :=
  match line with
  | Return raw =>
      let user_input := strip raw in
      if list_in (lower user_input) [u "exit"; u "quit"; u "q"] then None
      else if list_in (lower user_input) [u "vider cache"; u "reset"] then None
      else if any (fun salut => str_in salut (lower user_input)) salutations then None
      else Some user_input
  | Raise _ => None
  end.

(** The line is handed to the agent, and the call is interrupted from the
    keyboard. *)
Definition interrupts_agent (lower : str → str) {Agent : Type}
    (agent_call : Agent → str → list event * Agent * agent_result)
    (line : outcome str) (self : PremiumFiscalAssistant Agent) : bool :=
  match consults lower line with
  | Some x =>
      match (agent_call (agent self) x).2 with
      | AgentInterrupted => true
      | AgentOutput _ | AgentFailed _ => false
      end
  | None => false
  end.

(** A service that ignores the size of the request and the order of the
    scores. *)
Definition es_oversized : Elasticsearch :=
  fun _ => SearchHits [hit_taux_tva; hit_delai_tva; hit_taux_tva; hit_taux_tva].

(** A service whose second hit cannot be printed. *)
Definition es_malformed : Elasticsearch :=
  fun _ => SearchHits [hit_delai_tva; hit_without_question].

Definition assistant_malformed : PremiumFiscalAssistant AgentExecutor :=
  __init__ lower_latin1 (Some es_malformed).

(** A search that is interrupted from the keyboard. *)
Definition es_interrupted : Elasticsearch :=
  fun _ => SearchRaised KeyboardInterrupt.

Definition assistant_interrupted : PremiumFiscalAssistant AgentExecutor :=
  __init__ lower_latin1 (Some es_interrupted).

Definition assistant_oversized : PremiumFiscalAssistant AgentExecutor :=
  __init__ lower_latin1 (Some es_oversized).

(** A service that is down. *)
Definition es_down : Elasticsearch :=
  fun _ => SearchRaised (Exception (u "Connection timed out")).

Definition assistant_down : PremiumFiscalAssistant AgentExecutor :=
  __init__ lower_latin1 (Some es_down).

(** A server that does not answer the ping. *)
Definition client_unreachable : es_client :=
  {| ping := Return false;
     indices_exists := fun _ => Raise (Exception (u "Connection refused"));
     search := es_down |}.

(** A server that answers, without the index. *)
Definition client_without_index : es_client :=
  {| ping := Return true;
     indices_exists := fun _ => Return false;
     search := es_down |}.

(** An agent that always fails. *)
Definition agent_broken (a : AgentExecutor) (input : str)
  : list event * AgentExecutor * agent_result :=
  ([], a, AgentFailed (u "Rate limit reached")).

(** An agent that is interrupted from the keyboard. *)
Definition agent_interrupted (a : AgentExecutor) (input : str)
  : list event * AgentExecutor * agent_result :=
  ([], a, AgentInterrupted).

(** * Properties *)

(** ** Strings *)

Lemma startswith_spec (s p : str) :
  startswith s p = true ↔ ∃ post, s = p ++ post.
Proof.
  revert s. induction p as [|c p IH]; intros s; simpl.
  - split; [intros _; by exists s | done].
  - destruct s as [|d s]; simpl.
    + split; [done | intros [post H]; discriminate].
    + rewrite andb_true_iff, N.eqb_eq, IH. split.
      * intros [-> [post ->]]. by exists post.
      * intros [post [= -> ->]]. split; [done | by exists post].
Qed.

Lemma str_in_spec (sub s : str) : str_in sub s = true ↔ occurs_in sub s.
Proof.
  unfold occurs_in. induction s as [|a s IH]; simpl.
  - rewrite orb_false_r, startswith_spec. split.
    + intros [post H]. by exists [], post.
    + intros (pre & post & H). symmetry in H.
      apply app_eq_nil in H as [-> H]. apply app_eq_nil in H as [-> ->].
      by exists [].
  - rewrite orb_true_iff, startswith_spec, IH. split.
    + intros [[post H] | (pre & post & H)].
      * by exists [], post.
      * exists (a :: pre), post. by rewrite H.
    + intros (pre & post & H). destruct pre as [|b pre]; simpl in H.
      * left. by exists post.
      * right. injection H as _ H. by exists pre, post.
Qed.

Lemma any_spec {A} (p : A → bool) (l : list A) :
  any p l = true ↔ ∃ x, x ∈ l ∧ p x = true.
Proof.
  unfold any. rewrite existsb_exists.
  split; intros (x & Hx & Hp); exists x; split; try done;
    by apply list_elem_of_In.
Qed.

Lemma has_token_any (tokens : list str) (s : str) :
  any (fun t => str_in t s) tokens = true ↔ has_token tokens s.
Proof.
  rewrite any_spec. unfold has_token.
  split; intros (t & Ht & H); exists t; split; try done; by apply str_in_spec.
Qed.

Lemma no_token_any (tokens : list str) (s : str) :
  any (fun t => str_in t s) tokens = false ↔ ¬ has_token tokens s.
Proof. rewrite <- has_token_any. by destruct (any _ tokens). Qed.

(** ** The retrieval engine *)

Lemma tool_calls_app (tr tr' : list event) :
  tool_calls (tr ++ tr') = (tool_calls tr + tool_calls tr')%nat.
Proof. unfold tool_calls. by rewrite List.filter_app, length_app. Qed.

Lemma KeyError_is_Exception (key : str) : is_Exception (KeyError key) = true.
Proof. reflexivity. Qed.

Lemma mapM_cons `{MBind M, MRet M} {A B} (f : A → M B) (x : A) (l : list A) :
  mapM f (x :: l) = y ← f x; k ← mapM f l; mret (y :: k).
Proof. reflexivity. Qed.

(** Reading the answer of one hit succeeds exactly when the hit has one. *)
Lemma read_answer_spec (hit : Hit) :
  match answer_of hit with
  | Some text => read_answer hit = ([], Return text)
  | None => ∃ e, is_Exception e = true ∧ read_answer hit = ([], Raise e)
  end.
Proof.
  unfold answer_of, read_answer, get_source, get_reponse.
  destruct (_source hit) as [[q [r|]]|]; cbn [mbind option_bind reponse];
    [reflexivity | |]; (eexists; split; [|reflexivity]; reflexivity).
Qed.

(** The list of responses is built when every hit has an answer; the first
    hit without one raises. *)
Lemma read_answers_spec (hits : list Hit) :
  match mapM answer_of hits with
  | Some answers => mapM read_answer hits = ([], Return answers)
  | None => ∃ e, is_Exception e = true ∧ mapM read_answer hits = ([], Raise e)
  end.
Proof.
  induction hits as [|hit hits IH]; [reflexivity|].
  rewrite !mapM_cons. pose proof (read_answer_spec hit) as Hhit.
  destruct (answer_of hit) as [text|]; cbn [mbind option_bind].
  - rewrite Hhit.
    destruct (mapM answer_of hits) as [answers|]; cbn [mbind option_bind].
    + by rewrite IH.
    + destruct IH as (e & He & ->). by exists e.
  - destruct Hhit as (e & He & ->). by exists e.
Qed.

(** Printing the line of one hit succeeds exactly when the hit has a score
    that is a number and a question. *)
Lemma print_hit_spec (i : nat) (hit : Hit) :
  match printed_of hit with
  | Some line => print_hit i hit = ([hit_line i line], Return tt)
  | None => ∃ e, is_Exception e = true ∧ print_hit i hit = ([], Raise e)
  end.
Proof.
  unfold printed_of, print_hit, get_score, format_2f, get_source, get_question,
    hit_line.
  destruct (_score hit) as [| |q];
    [eexists; split; [|reflexivity]; reflexivity ..|].
  destruct (_source hit) as [[[text|] r]|]; cbn [mbind option_bind question];
    [reflexivity | |]; (eexists; split; [|reflexivity]; reflexivity).
Qed.

(** The loop prints the lines of the hits in order; at the first hit it
    cannot print it raises, after the lines of the hits before. *)
Lemma print_hits_spec (hits : list Hit) (i : nat) :
  match mapM printed_of hits with
  | Some lines =>
      for_enumerate i hits print_hit =
        (imap (fun j => hit_line (i + j)) lines, Return tt)
  | None =>
      ∃ shown e, is_Exception e = true ∧
        for_enumerate i hits print_hit = (shown, Raise e) ∧
        Forall (fun ev => ∃ j line, ev = hit_line j line) shown
  end.
Proof.
  revert i. induction hits as [|hit hits IH]; intros i; [reflexivity|].
  rewrite mapM_cons. cbn [for_enumerate].
  pose proof (print_hit_spec i hit) as Hhit.
  destruct (printed_of hit) as [line|]; cbn [mbind option_bind].
  - rewrite Hhit. specialize (IH (S i)).
    destruct (mapM printed_of hits) as [lines|]; cbn [mbind option_bind].
    + rewrite IH. cbn [mret option_ret]. unfold mbind, io_mbind, io_bind.
      cbn [imap app]. rewrite Nat.add_0_r. do 2 f_equal.
      apply imap_ext. intros j l _. cbn. by rewrite Nat.add_succ_r.
    + destruct IH as (shown & e & He & -> & Hshown).
      exists (hit_line i line :: shown), e. split; [done|]. split; [done|].
      constructor; [by eexists _, _ | done].
  - destruct Hhit as (e & He & ->). exists [], e. by repeat split.
Qed.

Lemma parsed_Some (hits : list Hit) (answers : list str) (lines : list (Q * str)) :
  parsed hits = Some (answers, lines) ↔
  mapM answer_of hits = Some answers ∧ mapM printed_of (take 3 hits) = Some lines.
Proof.
  unfold parsed.
  destruct (mapM answer_of hits) as [a|]; cbn [mbind option_bind];
    [|split; [done | by intros [? _]]].
  destruct (mapM printed_of (take 3 hits)) as [l|]; cbn [mbind option_bind];
    [|split; [done | by intros [_ ?]]].
  split; [by intros [= -> ->] | by intros [[= ->] [= ->]]].
Qed.

Lemma parsed_None (hits : list Hit) :
  parsed hits = None ↔
  mapM answer_of hits = None ∨ mapM printed_of (take 3 hits) = None.
Proof.
  unfold parsed.
  destruct (mapM answer_of hits) as [a|]; cbn [mbind option_bind];
    [|split; [by left | done]].
  destruct (mapM printed_of (take 3 hits)) as [l|]; cbn [mbind option_bind];
    [|split; [by right | done]].
  split; [done | by intros [?|?]].
Qed.

Lemma printed_of_score (hit : Hit) (line : Q * str) :
  printed_of hit = Some line → _score hit = Number line.1.
Proof.
  unfold printed_of. destruct (_score hit) as [| |q]; [done | done |].
  destruct (_source hit) as [[[text|] r]|]; cbn [mbind option_bind question];
    [|done|done].
  by intros [= <-].
Qed.

(** The first line that is read is the line of the first hit, with its
    score. *)
Lemma parsed_first_line (hit0 : Hit) (rest : list Hit) (answers : list str)
    (lines : list (Q * str)) :
  parsed (hit0 :: rest) = Some (answers, lines) →
  ∃ a0 answers' line0 lines',
    answers = a0 :: answers' ∧ answer_of hit0 = Some a0 ∧
    lines = line0 :: lines' ∧ _score hit0 = Number line0.1.
Proof.
  intros [Hanswers Hlines]%parsed_Some.
  change (take 3 (hit0 :: rest)) with (hit0 :: take 2 rest) in Hlines.
  rewrite mapM_cons in Hanswers. rewrite mapM_cons in Hlines.
  destruct (answer_of hit0) as [a0|]; cbn [mbind option_bind] in Hanswers; [|done].
  destruct (mapM answer_of rest) as [answers'|];
    cbn [mbind option_bind] in Hanswers; [|done].
  injection Hanswers as <-.
  destruct (printed_of hit0) as [line0|] eqn:Hline;
    cbn [mbind option_bind] in Hlines; [|done].
  destruct (mapM printed_of (take 2 rest)) as [lines'|];
    cbn [mbind option_bind] in Hlines; [|done].
  injection Hlines as <-.
  exists a0, answers', line0, lines'.
  split; [done|]. split; [done|]. split; [done|]. by apply printed_of_score.
Qed.

Lemma try_except_returned {A} (c : io A) (handler : exn → io A) tr a :
  c = (tr, Return a) → try_except c handler = (tr, Return a).
Proof. by intros ->. Qed.

Lemma try_except_caught {A} (c : io A) (handler : exn → io A) tr e :
  c = (tr, Raise e) → is_Exception e = true →
  try_except c handler = (tr ++ (handler e).1, (handler e).2).
Proof. intros -> He. unfold try_except. rewrite He. by destruct (handler e). Qed.

Lemma try_except_through {A} (c : io A) (handler : exn → io A) tr e :
  c = (tr, Raise e) → is_Exception e = false →
  try_except c handler = (tr, Raise e).
Proof. intros -> He. unfold try_except. by rewrite He. Qed.

Ltac engine_unfold :=
  unfold mbind, io_mbind, io_bind, print, io_emit, io_ret, io_raise in *.

Section Retrieval.

Context {Agent : Type}.
Variable self : PremiumFiscalAssistant Agent.
Variable query : str.

Lemma _get_contextual_results_offline :
  es self = None →
  _get_contextual_results self query =
    ([search_error_line (u "'NoneType' object has no attribute 'search'")],
     Return ([], Some 0%Q)).
Proof.
  intros Hes. unfold _get_contextual_results, es_search. rewrite Hes.
  erewrite try_except_caught; [| reflexivity | reflexivity].
  reflexivity.
Qed.

Lemma _get_contextual_results_failed client e :
  es self = Some client →
  client (contextual_request query) = SearchRaised e →
  is_Exception e = true →
  _get_contextual_results self query =
    ([EvSearch (contextual_request query); search_error_line (exn_str e)],
     Return ([], Some 0%Q)).
Proof.
  intros Hes Hreq He. unfold _get_contextual_results, es_search.
  rewrite Hes, Hreq.
  erewrite try_except_caught; [| reflexivity | exact He].
  reflexivity.
Qed.

Lemma _get_contextual_results_interrupted e :
  search_interrupted self query e →
  _get_contextual_results self query =
    ([EvSearch (contextual_request query)], Raise e).
Proof.
  intros (client & Hes & Hreq & He). unfold _get_contextual_results, es_search.
  rewrite Hes, Hreq.
  erewrite try_except_through; [| reflexivity | exact He].
  reflexivity.
Qed.

Lemma _get_contextual_results_empty :
  search_answers self query [] →
  _get_contextual_results self query =
    ([EvSearch (contextual_request query)], Return ([], Some 0%Q)).
Proof.
  intros (client & Hes & Hreq). unfold _get_contextual_results, es_search.
  by rewrite Hes, Hreq.
Qed.

(** The hits can be read: the answers of all of them are returned with the
    score of the first, after the header and the lines of the first
    three. *)
Lemma _get_contextual_results_parsed hits answers lines :
  search_answers self query hits → hits ≠ [] →
  parsed hits = Some (answers, lines) →
  _get_contextual_results self query =
    (EvSearch (contextual_request query)
       :: EvPrint (LF ++ u "🔍 Résultats de recherche :")
       :: imap hit_line lines,
     Return (answers, fst <$> head lines)).
Proof.
  intros (client & Hes & Hreq) Hne Hparsed.
  destruct hits as [|hit0 rest]; [done|].
  destruct (parsed_first_line _ _ _ _ Hparsed)
    as (a0 & answers' & line0 & lines' & -> & _ & -> & Hscore).
  apply parsed_Some in Hparsed as [Hanswers Hlines].
  pose proof (read_answers_spec (hit0 :: rest)) as Hread.
  rewrite Hanswers in Hread.
  pose proof (print_hits_spec (take 3 (hit0 :: rest)) 0) as Hprint.
  rewrite Hlines in Hprint.
  unfold _get_contextual_results, es_search. rewrite Hes, Hreq.
  apply try_except_returned. engine_unfold. cbn iota beta.
  unfold get_score. rewrite Hscore. unfold io_ret. cbn iota beta.
  rewrite Hread. cbn iota beta. rewrite Hprint. cbn iota beta.
  cbn [app head fmap option_fmap option_map fst]. by rewrite app_nil_r.
Qed.

(** The hits cannot be read: what was printed before the failure stays,
    the error line follows, and the empty list is returned with 0. *)
Lemma _get_contextual_results_unparsed hits :
  search_answers self query hits → hits ≠ [] →
  parsed hits = None →
  ∃ shown text,
    _get_contextual_results self query =
      (EvSearch (contextual_request query) :: shown ++ [search_error_line text],
       Return ([], Some 0%Q)) ∧
    Forall (fun ev => ev = EvPrint (LF ++ u "🔍 Résultats de recherche :") ∨
                      ∃ j line, ev = hit_line j line) shown.
Proof.
  intros (client & Hes & Hreq) Hne Hparsed.
  destruct hits as [|hit0 rest]; [done|].
  unfold _get_contextual_results, es_search. rewrite Hes, Hreq.
  assert (∀ (shown : list event) (e : exn) (c : io (list str * option Q)),
            c = (EvSearch (contextual_request query) :: shown, Raise e) →
            is_Exception e = true →
            try_except c
              (fun e => print (u "⚠️ Erreur recherche Elasticsearch: " ++ exn_str e) ;;
                        io_ret ([], Some 0%Q))
            = (EvSearch (contextual_request query)
                 :: shown ++ [search_error_line (exn_str e)],
               Return ([], Some 0%Q))) as Hcaught.
  { intros shown e c -> He. erewrite try_except_caught; [| reflexivity | exact He].
    reflexivity. }
  pose proof (read_answers_spec (hit0 :: rest)) as Hread.
  pose proof (print_hits_spec (take 3 (hit0 :: rest)) 0) as Hprint.
  apply parsed_None in Hparsed.
  destruct (_score hit0) as [| |q0] eqn:Hscore.
  - exists [], (exn_str (KeyError (u "_score"))). split; [|constructor].
    apply Hcaught; [|reflexivity].
    engine_unfold. cbn iota beta. unfold get_score. by rewrite Hscore.
  - destruct (mapM answer_of (hit0 :: rest)) as [answers|].
    + destruct Hparsed as [? | Hlines]; [done|]. rewrite Hlines in Hprint.
      destruct Hprint as (shown & e & He & Hprint & Hshown).
      exists (EvPrint (LF ++ u "🔍 Résultats de recherche :") :: shown), (exn_str e).
      split.
      * apply Hcaught; [|exact He].
        engine_unfold. cbn iota beta. unfold get_score. rewrite Hscore.
        unfold io_ret. cbn iota beta. rewrite Hread. cbn iota beta.
        rewrite Hprint. reflexivity.
      * constructor; [by left|]. eapply Forall_impl; [exact Hshown|]. by right.
    + destruct Hread as (e & He & Hread). exists [], (exn_str e).
      split; [|constructor]. apply Hcaught; [|exact He].
      engine_unfold. cbn iota beta. unfold get_score. rewrite Hscore.
      unfold io_ret. cbn iota beta. by rewrite Hread.
  - destruct (mapM answer_of (hit0 :: rest)) as [answers|].
    + destruct Hparsed as [? | Hlines]; [done|]. rewrite Hlines in Hprint.
      destruct Hprint as (shown & e & He & Hprint & Hshown).
      exists (EvPrint (LF ++ u "🔍 Résultats de recherche :") :: shown), (exn_str e).
      split.
      * apply Hcaught; [|exact He].
        engine_unfold. cbn iota beta. unfold get_score. rewrite Hscore.
        unfold io_ret. cbn iota beta. rewrite Hread. cbn iota beta.
        rewrite Hprint. reflexivity.
      * constructor; [by left|]. eapply Forall_impl; [exact Hshown|]. by right.
    + destruct Hread as (e & He & Hread). exists [], (exn_str e).
      split; [|constructor]. apply Hcaught; [|exact He].
      engine_unfold. cbn iota beta. unfold get_score. rewrite Hscore.
      unfold io_ret. cbn iota beta. by rewrite Hread.
Qed.

(** What the search call does is one of: raise an [Exception], raise
    something else, or answer. *)
Lemma search_cases :
  search_raises self query ∨
  (∃ e, search_interrupted self query e) ∨
  search_answers self query (candidates self query).
Proof.
  unfold search_raises, search_interrupted, search_answers, candidates.
  destruct (es self) as [client|] eqn:Hes; [|by left; left].
  destruct (client (contextual_request query)) as [e|hits] eqn:Hreq.
  - destruct (is_Exception e) eqn:He.
    + left. right. by exists client, e.
    + right. left. exists e, client. by rewrite Hreq.
  - right. right. by exists client.
Qed.

Lemma search_raises_candidates :
  search_raises self query → candidates self query = [].
Proof.
  unfold candidates. intros [Hes | (client & e & Hes & Hreq & _)]; rewrite Hes; [done|].
  by rewrite Hreq.
Qed.

Lemma search_answers_candidates hits :
  search_answers self query hits → candidates self query = hits.
Proof. unfold candidates. intros (client & Hes & Hreq). by rewrite Hes, Hreq. Qed.

(** When the search raises an [Exception], the engine returns the empty
    list with 0 after the error line. *)
Lemma _get_contextual_results_search_raises :
  search_raises self query →
  ∃ tr, tr ≠ [] ∧ _get_contextual_results self query = (tr, Return ([], Some 0%Q)).
Proof.
  intros [Hes | (client & e & Hes & Hreq & He)].
  - rewrite (_get_contextual_results_offline Hes).
    eexists. split; [|reflexivity]. done.
  - rewrite (_get_contextual_results_failed _ _ Hes Hreq He).
    eexists. split; [|reflexivity]. done.
Qed.


End Retrieval.

Section RetrievalFacts.

Context {Agent : Type}.
Variable self : PremiumFiscalAssistant Agent.
Variable query : str.

(** Every way the engine can go, by what the search call does and by
    whether the hits can be read. *)
Lemma _get_contextual_results_cases :
  (search_raises self query ∧
   ∃ text,
     _get_contextual_results self query =
       ((match es self with
         | Some _ => [EvSearch (contextual_request query)]
         | None => []
         end) ++ [search_error_line text],
        Return ([], Some 0%Q))) ∨
  (∃ e, search_interrupted self query e ∧
        _get_contextual_results self query =
          ([EvSearch (contextual_request query)], Raise e)) ∨
  (search_answers self query [] ∧
   _get_contextual_results self query =
     ([EvSearch (contextual_request query)], Return ([], Some 0%Q))) ∨
  (∃ hit0 rest answers lines,
     search_answers self query (hit0 :: rest) ∧
     parsed (hit0 :: rest) = Some (answers, lines) ∧
     _get_contextual_results self query =
       (EvSearch (contextual_request query)
          :: EvPrint (LF ++ u "🔍 Résultats de recherche :")
          :: imap hit_line lines,
        Return (answers, fst <$> head lines))) ∨
  (∃ hit0 rest shown text,
     search_answers self query (hit0 :: rest) ∧
     parsed (hit0 :: rest) = None ∧
     _get_contextual_results self query =
       (EvSearch (contextual_request query) :: shown ++ [search_error_line text],
        Return ([], Some 0%Q)) ∧
     Forall (fun ev => ev = EvPrint (LF ++ u "🔍 Résultats de recherche :") ∨
                       ∃ j line, ev = hit_line j line) shown).
Proof.
  destruct (search_cases self query) as [Hraise | [[e He] | Hhits]].
  - left. split; [done|].
    destruct Hraise as [Hes | (client & e & Hes & Hreq & He)].
    + rewrite (_get_contextual_results_offline _ _ Hes), Hes. by eexists.
    + rewrite (_get_contextual_results_failed _ _ _ _ Hes Hreq He), Hes.
      by eexists.
  - right. left. exists e. split; [done|].
    by apply _get_contextual_results_interrupted.
  - destruct (candidates self query) as [|hit0 rest].
    + right. right. left. split; [done|]. by apply _get_contextual_results_empty.
    + destruct (parsed (hit0 :: rest)) as [[answers lines]|] eqn:Hparsed.
      * right. right. right. left. exists hit0, rest, answers, lines.
        split; [done|]. split; [done|].
        by apply (_get_contextual_results_parsed _ _ _ _ _ Hhits).
      * right. right. right. right.
        destruct (_get_contextual_results_unparsed _ _ _ Hhits)
          as (shown & text & Hres & Hshown); [done | done |].
        by exists hit0, rest, shown, text.
Qed.

(** The engine calls no tool. *)
Lemma _get_contextual_results_no_tool :
  tool_calls (_get_contextual_results self query).1 = 0%nat.
Proof.
  assert (∀ (lines : list (Q * str)) (f : nat → Q * str → event),
            (∀ j l, tool_calls [f j l] = 0%nat) →
            tool_calls (imap f lines) = 0%nat) as Hlines.
  { induction lines as [|l lines IH]; intros f Hf; [done|].
    cbn [imap]. change (?x :: ?t) with ([x] ++ t).
    rewrite tool_calls_app, Hf, IH; [done|]. intros j l'. apply Hf. }
  assert (∀ shown,
            Forall (fun ev => ev = EvPrint (LF ++ u "🔍 Résultats de recherche :") ∨
                              ∃ j line, ev = hit_line j line) shown →
            tool_calls shown = 0%nat) as Hshown.
  { induction 1 as [|ev shown [-> | (j & l & ->)] _ IH]; [done | |];
      change (?x :: ?t) with ([x] ++ t); by rewrite tool_calls_app, IH. }
  destruct _get_contextual_results_cases
    as [[_ [text ->]] | [(e & _ & ->) | [[_ ->] |
        [(hit0 & rest & answers & lines & _ & _ & ->) |
         (hit0 & rest & shown & text & _ & _ & -> & Hall)]]]]; cbn [fst].
  - by destruct (es self).
  - done.
  - done.
  - change (?x :: ?y :: ?t) with ([x; y] ++ t).
    rewrite tool_calls_app, (Hlines lines hit_line); done.
  - change (?x :: ?t ++ ?l) with ([x] ++ t ++ l).
    by rewrite !tool_calls_app, (Hshown shown Hall).
Qed.

(** The engine raises only what interrupted the search. *)
Lemma _get_contextual_results_raises e :
  (_get_contextual_results self query).2 = Raise e →
  search_interrupted self query e.
Proof.
  destruct _get_contextual_results_cases
    as [[_ [text ->]] | [(e' & He' & ->) | [[_ ->] |
        [(hit0 & rest & answers & lines & _ & _ & ->) |
         (hit0 & rest & shown & text & _ & _ & -> & _)]]]]; cbn [snd];
    try discriminate.
  by intros [= <-].
Qed.

(** What the engine returns is the empty list with 0, or the answers of
    all the hits, as the service gave them, with the score of the first. *)
Lemma _get_contextual_results_returns (responses : list str) (score : option Q) :
  (_get_contextual_results self query).2 = Return (responses, score) →
  (responses = [] ∧ score = Some 0%Q) ∨
  (∃ hit0 rest lines,
     search_answers self query (hit0 :: rest) ∧
     parsed (hit0 :: rest) = Some (responses, lines) ∧
     score = fst <$> head lines).
Proof.
  destruct _get_contextual_results_cases
    as [[_ [text ->]] | [(e' & He' & ->) | [[_ ->] |
        [(hit0 & rest & answers & lines & Hhits & Hparsed & ->) |
         (hit0 & rest & shown & text & _ & _ & -> & _)]]]]; cbn [snd];
    try discriminate; try (intros [= <- <-]; by left).
  intros [= <- <-]. right. by exists hit0, rest, lines.
Qed.

End RetrievalFacts.

(** ** The domain gate and the arbiter: [recherche_fiscale] *)

Section Gate.

Variable lower : str → str.
Context {Agent : Type}.
Variable self : PremiumFiscalAssistant Agent.

Lemma greeting_precedence (query : str) :
  greets lower query →
  recherche_fiscale lower self query = ([], Return _gerer_salutation).
Proof.
  intros Hgreet. apply has_token_any in Hgreet.
  unfold recherche_fiscale. by rewrite Hgreet.
Qed.

(** C1. A query whose lower-cased text contains a greeting token gets the
    fixed greeting, whatever domain keywords it also contains, and with
    the empty trace: no search request is sent and nothing is printed,
    whereas every call of the retrieval engine leaves a trace
    ([_get_contextual_results_cases]). *)
Theorem greeting_takes_precedence (query : str) :
  greets lower query →
  recherche_fiscale lower self query = ([], Return _gerer_salutation).
Proof. apply greeting_precedence. Qed.

Lemma recherche_fiscale_out_of_domain (query : str) :
  ¬ has_token salutations (lower query) →
  ¬ has_token mots_cles_fiscaux (lower query) →
  recherche_fiscale lower self query = ([], Return refus_hors_domaine).
Proof.
  intros Hgreet Hdomain.
  apply no_token_any in Hgreet. apply no_token_any in Hdomain.
  unfold recherche_fiscale. by rewrite Hgreet, Hdomain.
Qed.

(** C5. A query whose lower-cased text contains no greeting token and no
    keyword of the list gets the fixed refusal, with the empty trace: the
    retrieval engine is not called. *)
Theorem out_of_domain_is_refused (query : str) :
  out_of_domain lower query →
  recherche_fiscale lower self query = ([], Return refus_hors_domaine).
Proof. intros [Hgreet Hdomain]. by apply recherche_fiscale_out_of_domain. Qed.

(** For an in-domain query the arbiter decides on the engine's answer. *)
Lemma recherche_fiscale_in_domain (query : str) :
  in_domain lower query →
  recherche_fiscale lower self query =
    ('(responses, score) ← _get_contextual_results self query;
     match responses with
     | [] => io_ret aucune_information
     | r0 :: _ => io_ret r0
     end).
Proof.
  intros [Hgreet Hdomain].
  apply no_token_any in Hgreet. apply has_token_any in Hdomain.
  unfold recherche_fiscale. by rewrite Hgreet, Hdomain.
Qed.

(** When the engine gives no answer, the in-domain query gets the
    not-found message. *)
Lemma no_candidate_not_found (query : str) (tr : list event) (score : option Q) :
  in_domain lower query →
  _get_contextual_results self query = (tr, Return ([], score)) →
  recherche_fiscale lower self query = (tr, Return aucune_information).
Proof.
  intros Hdomain Hres. rewrite (recherche_fiscale_in_domain _ Hdomain).
  unfold mbind, io_mbind, io_bind. rewrite Hres. simpl. by rewrite app_nil_r.
Qed.

(** For an in-domain query the arbiter prints what the engine prints, and
    raises what the engine raises. *)
Lemma recherche_fiscale_in_domain_trace (query : str) :
  in_domain lower query →
  (recherche_fiscale lower self query).1 = (_get_contextual_results self query).1 ∧
  (recherche_fiscale lower self query).2 =
    match (_get_contextual_results self query).2 with
    | Return ([], _) => Return aucune_information
    | Return (r0 :: _, _) => Return r0
    | Raise e => Raise e
    end.
Proof.
  intros Hdomain. rewrite (recherche_fiscale_in_domain _ Hdomain).
  unfold mbind, io_mbind, io_bind.
  destruct (_get_contextual_results self query) as [tr [[[|r0 responses] score]|e]];
    cbn [fst snd io_ret]; by rewrite ?app_nil_r.
Qed.

(** C2. For an in-domain query whose retrieval yields a non-empty list of
    responses, the text returned is exactly [responses[0]], and that is the
    answer of the first hit of the search: not a concatenation, not the
    answer of a later hit.  Said from the hits: when the search answers
    with a non-empty list of hits that can be read, the text returned is
    the answer of the first of them. *)
Theorem top_candidate_answer (query : str) :
  in_domain lower query →
  (∀ responses score,
     (_get_contextual_results self query).2 = Return (responses, score) →
     responses ≠ [] →
     ∃ r0 hit0 rest,
       responses !! 0%nat = Some r0 ∧
       (recherche_fiscale lower self query).2 = Return r0 ∧
       search_answers self query (hit0 :: rest) ∧
       answer_of hit0 = Some r0) ∧
  (∀ hit0 rest,
     search_answers self query (hit0 :: rest) →
     is_Some (parsed (hit0 :: rest)) →
     ∃ r0, answer_of hit0 = Some r0 ∧
           (recherche_fiscale lower self query).2 = Return r0).
Proof.
  intros Hdomain.
  destruct (recherche_fiscale_in_domain_trace _ Hdomain) as [_ Hrf].
  split.
  - intros responses score Hres Hne. rewrite Hrf, Hres.
    destruct (_get_contextual_results_returns self query _ _ Hres)
      as [[-> _] | (hit0 & rest & lines & Hhits & Hparsed & _)]; [done|].
    destruct (parsed_first_line _ _ _ _ Hparsed)
      as (a0 & answers' & line0 & lines' & -> & Ha0 & _ & _).
    by exists a0, hit0, rest.
  - intros hit0 rest Hhits [[responses lines] Hparsed]. rewrite Hrf.
    rewrite (_get_contextual_results_parsed _ _ _ _ _ Hhits ltac:(done) Hparsed).
    destruct (parsed_first_line _ _ _ _ Hparsed)
      as (a0 & answers' & line0 & lines' & -> & Ha0 & _ & _).
    by exists a0.
Qed.

(** The three classes cover every query. *)
Lemma gate_trichotomy (query : str) :
  greets lower query ∨ out_of_domain lower query ∨ in_domain lower query.
Proof.
  unfold greets, out_of_domain, in_domain.
  destruct (any (fun t => str_in t (lower query)) salutations) eqn:Hgreet.
  - left. by apply has_token_any.
  - apply no_token_any in Hgreet.
    destruct (any (fun t => str_in t (lower query)) mots_cles_fiscaux) eqn:Hdomain.
    + right. right. split; [done|]. by apply has_token_any.
    + right. left. split; [done|]. by apply no_token_any.
Qed.

(** The arbiter returns a text, or lets through what interrupted the
    search of an in-domain query. *)
Lemma recherche_fiscale_returns (query : str) :
  (∃ text, (recherche_fiscale lower self query).2 = Return text) ∨
  (∃ e, (recherche_fiscale lower self query).2 = Raise e ∧
        in_domain lower query ∧ search_interrupted self query e).
Proof.
  destruct (gate_trichotomy query) as [Hgreet | [[Hno Hout] | Hdomain]].
  - left. apply has_token_any in Hgreet. unfold recherche_fiscale.
    rewrite Hgreet. by eexists.
  - left. rewrite (recherche_fiscale_out_of_domain _ Hno Hout). by eexists.
  - destruct (recherche_fiscale_in_domain_trace _ Hdomain) as [_ ->].
    destruct (_get_contextual_results self query).2
      as [[[|r0 responses] score]|e] eqn:Hres.
    + left. by eexists.
    + left. by eexists.
    + right. exists e. split; [done|]. split; [done|].
      by apply _get_contextual_results_raises.
Qed.

Lemma recherche_fiscale_no_tool (query : str) :
  tool_calls (recherche_fiscale lower self query).1 = 0%nat.
Proof.
  destruct (gate_trichotomy query) as [Hgreet | [[Hno Hout] | Hdomain]].
  - apply has_token_any in Hgreet. unfold recherche_fiscale. by rewrite Hgreet.
  - by rewrite (recherche_fiscale_out_of_domain _ Hno Hout).
  - destruct (recherche_fiscale_in_domain_trace _ Hdomain) as [-> _].
    apply _get_contextual_results_no_tool.
Qed.

End Gate.

(** C3. When the search call raises, the engine returns the empty list with
    score 0 and raises nothing; and for an in-domain query the caller then
    returns the not-found message, the same text as the one it returns when
    the search answers with no hit. *)
Theorem search_failure_reads_as_not_found (lower : str → str) {Agent : Type}
    (self_down self_empty : PremiumFiscalAssistant Agent) (query : str) :
  search_raises self_down query →
  search_answers self_empty query [] →
  (_get_contextual_results self_down query).2 = Return ([], Some 0%Q) ∧
  (in_domain lower query →
     (recherche_fiscale lower self_down query).2 = Return aucune_information ∧
     (recherche_fiscale lower self_down query).2
       = (recherche_fiscale lower self_empty query).2).
Proof.
  intros Hdown Hempty.
  destruct (_get_contextual_results_search_raises self_down query Hdown)
    as (tr & _ & Htr).
  split; [by rewrite Htr|]. intros Hdomain.
  rewrite (no_candidate_not_found lower self_down query tr _ Hdomain Htr).
  rewrite (no_candidate_not_found lower self_empty query _ _ Hdomain
             (_get_contextual_results_empty self_empty query Hempty)).
  done.
Qed.

(** ** The requests of the engine *)

Lemma searches_app (tr tr' : list event) :
  searches (tr ++ tr') = (searches tr + searches tr')%nat.
Proof. unfold searches. by rewrite List.filter_app, length_app. Qed.

Lemma engine_print_quiet (tr : list event) :
  Forall engine_print tr →
  searches tr = 0%nat ∧ ∀ req, EvSearch req ∉ tr.
Proof.
  induction 1 as [|ev tr Hev _ [IHn IHin]]; [split; [done | by intros req ?%elem_of_nil]|].
  split.
  - change (ev :: tr) with ([ev] ++ tr). rewrite searches_app, IHn.
    by destruct Hev as [[text ->] | (j & line & ->)].
  - intros req [Heq | Hin]%elem_of_cons; [|by destruct (IHin req)].
    destruct Hev as [[text ->] | (j & line & ->)]; discriminate.
Qed.

Lemma hit_lines_print (lines : list (Q * str)) (f : nat → Q * str → event) :
  (∀ j l, ∃ j', f j l = hit_line j' l) → Forall engine_print (imap f lines).
Proof.
  revert f. induction lines as [|l lines IH]; intros f Hf; cbn [imap]; [done|].
  constructor.
  - right. destruct (Hf 0%nat l) as [j' ->]. by eexists _, _.
  - apply IH. intros j l'. apply Hf.
Qed.

Section Requests.

Context {Agent : Type}.
Variable self : PremiumFiscalAssistant Agent.
Variable query : str.

(** The trace of the engine: the request, when there is a client to send it
    to, and then what the engine prints. *)
Lemma _get_contextual_results_trace :
  ∃ printed,
    (_get_contextual_results self query).1 =
      (match es self with
       | Some _ => [EvSearch (contextual_request query)]
       | None => []
       end) ++ printed ∧
    Forall engine_print printed.
Proof.
  destruct (_get_contextual_results_cases self query)
    as [[_ [text ->]] | [(e & (client & Hes & _) & ->) |
        [[(client & Hes & _) ->] |
         [(hit0 & rest & answers & lines & (client & Hes & _) & _ & ->) |
          (hit0 & rest & shown & text & (client & Hes & _) & _ & -> & Hall)]]]];
    cbn [fst]; try rewrite Hes.
  - eexists. split; [reflexivity|]. constructor; [|done]. left. by eexists.
  - by exists [].
  - by exists [].
  - eexists. split; [reflexivity|]. constructor; [left; by eexists|].
    apply hit_lines_print. intros j l. by exists j.
  - eexists. split; [reflexivity|]. apply Forall_app. split.
    + eapply Forall_impl; [exact Hall|].
      intros ev [-> | Hline]; [left; by eexists | by right].
    + constructor; [|done]. left. by eexists.
Qed.

(** The engine sends one request when there is a client, none otherwise,
    and the request is the one built from the query. *)
Lemma _get_contextual_results_searches :
  searches (_get_contextual_results self query).1
    = (match es self with Some _ => 1 | None => 0 end)%nat ∧
  (∀ req, EvSearch req ∈ (_get_contextual_results self query).1 →
          req = contextual_request query).
Proof.
  destruct _get_contextual_results_trace as (printed & -> & Hprinted).
  destruct (engine_print_quiet _ Hprinted) as [Hn Hin].
  rewrite searches_app, Hn. split.
  - by destruct (es self).
  - intros req [Hreq | Hreq]%elem_of_app; [|by destruct (Hin req)].
    destruct (es self); [|by apply elem_of_nil in Hreq].
    apply list_elem_of_singleton in Hreq. by injection Hreq.
Qed.

End Requests.
(** ** Upper-case keywords *)

Lemma has_upper_app (s t : str) : has_upper (s ++ t) = has_upper s || has_upper t.
Proof. unfold has_upper. apply existsb_app. Qed.

(** A string with an upper-case letter does not occur in a string without. *)
Lemma upper_not_in_lower (sub s : str) :
  has_upper sub = true → has_upper s = false → ¬ occurs_in sub s.
Proof.
  intros Hsub Hs (pre & post & ->).
  rewrite !has_upper_app, Hsub, orb_true_r in Hs. discriminate.
Qed.

Lemma lower_latin1_no_upper (s : str) : has_upper (lower_latin1 s) = false.
Proof.
  unfold has_upper, lower_latin1.
  induction s as [|c s IH]; [done|]. cbn [existsb List.map].
  rewrite IH, orb_false_r.
  unfold is_ascii_upper, lower_cp_latin1.
  destruct (N.leb_spec 65 c), (N.leb_spec c 90), (N.leb_spec 192 c),
    (N.leb_spec c 222), (N.eqb_spec c 215); cbn [andb negb];
    rewrite andb_false_iff, !N.leb_gt; lia.
Qed.

(** A decision procedure for "no keyword without upper-case letter occurs". *)
Lemma no_lower_case_keyword (tokens : list str) (s : str) :
  forallb (fun t => has_upper t || negb (str_in t s)) tokens = true →
  ∀ t, t ∈ tokens → has_upper t = false → ¬ occurs_in t s.
Proof.
  rewrite forallb_forall. intros Hall t Ht Hupper Hocc.
  apply list_elem_of_In, Hall in Ht. apply str_in_spec in Hocc.
  rewrite Hupper, Hocc in Ht. discriminate.
Qed.

(** C9. [lower] leaves no upper-case letter, and the keywords are compared
    as they are written.  So a keyword with an upper-case letter occurs in
    no lower-cased query; and a query without greeting token in which no
    keyword written in lower case occurs is refused as out of domain,
    acronyms such as IR or IS notwithstanding. *)
Theorem upper_case_keywords_never_match (lower : str → str) {Agent : Type}
    (self : PremiumFiscalAssistant Agent) (query : str) :
  (∀ s, has_upper (lower s) = false) →
  ¬ greets lower query →
  (∀ mot, mot ∈ mots_cles_fiscaux → has_upper mot = false →
          ¬ occurs_in mot (lower query)) →
  (∀ mot q, mot ∈ mots_cles_fiscaux → has_upper mot = true →
            ¬ occurs_in mot (lower q)) ∧
  recherche_fiscale lower self query = ([], Return refus_hors_domaine).
Proof.
  intros Hlower Hgreet Hnone.
  assert (∀ mot q, has_upper mot = true → ¬ occurs_in mot (lower q)) as Hdead.
  { intros mot q Hupper. by apply upper_not_in_lower. }
  split; [intros mot q _; apply Hdead|].
  apply recherche_fiscale_out_of_domain; [done|].
  intros (mot & Hmot & Hocc).
  destruct (has_upper mot) eqn:Hupper.
  - by apply (Hdead mot query).
  - by apply (Hnone mot).
Qed.


(** ** The search service: size and order *)

(** ** White space *)

Lemma lstrip_all_space (s : str) :
  lstrip s = [] ↔ Forall (fun c => isspace c = true) s.
Proof.
  induction s as [|c s IH]; simpl.
  - split; [constructor | done].
  - destruct (isspace c) eqn:Hc.
    + rewrite IH. split; [by constructor | by inversion 1].
    + split; [done | inversion 1; congruence].
Qed.

Lemma lstrip_head (s : str) (c : N) (t : str) :
  lstrip s = c :: t → isspace c = false.
Proof.
  induction s as [|d s IH]; simpl; [done|].
  destruct (isspace d) eqn:Hd; [done | by intros [= <- _]].
Qed.

Lemma lstrip_fixed (s : str) : lstrip (lstrip s) = lstrip s.
Proof.
  destruct (lstrip s) as [|c t] eqn:Hs; [done|].
  simpl. by rewrite (lstrip_head _ _ _ Hs).
Qed.

(** [not question.strip()] holds exactly of the empty string and of the
    strings of white space. *)
Lemma strip_all_space (s : str) :
  strip s = [] ↔ Forall (fun c => isspace c = true) s.
Proof.
  unfold strip, rstrip. rewrite <- lstrip_all_space. split.
  - intros H. apply (f_equal (@rev N)) in H. rewrite rev_involutive in H. simpl in H.
    apply lstrip_all_space, Forall_rev in H. rewrite rev_involutive in H.
    apply lstrip_all_space in H. by rewrite lstrip_fixed in H.
  - by intros ->.
Qed.

(** ** The endpoint [get_fiscalite] *)

Section Endpoint.

Context {Agent : Type}.
Variable agent_call : Agent → str → list event * Agent * agent_result.
Variable self : PremiumFiscalAssistant Agent.

(** The key check passes: no key, an empty key, or the secret. *)
Lemma key_check_passes (x_api_key : option str) :
  truthy x_api_key && negb (bool_decide (x_api_key = Some API_KEY)) = false ↔
  x_api_key = None ∨ x_api_key = Some [] ∨ x_api_key = Some API_KEY.
Proof.
  destruct x_api_key as [[|c key]|]; simpl.
  - split; [auto | done].
  - case_bool_decide as Hkey; simpl.
    + split; [auto | done].
    + split; [done|]. intros [H | [H | H]]; done.
  - split; [auto | done].
Qed.

Lemma get_fiscalite_forbidden (question : str) (x_api_key : option str) :
  truthy x_api_key && negb (bool_decide (x_api_key = Some API_KEY)) = true →
  get_fiscalite agent_call question x_api_key self =
    ([], self, Raise (HTTPException 403 (u "Accès non autorisé. Clé invalide."))).
Proof. intros Hkey. unfold get_fiscalite. by rewrite Hkey. Qed.

Lemma get_fiscalite_rejected (question : str) (x_api_key : option str) :
  truthy x_api_key && negb (bool_decide (x_api_key = Some API_KEY)) = false →
  bool_decide (strip question = []) || (length question <? 3)%nat = true →
  get_fiscalite agent_call question x_api_key self =
    ([], self, Return question_trop_courte).
Proof. intros Hkey Hshort. unfold get_fiscalite. by rewrite Hkey, Hshort. Qed.

(** A question that passes both checks goes to the agent, once, as it was
    received. *)
Lemma get_fiscalite_forwarded (question : str) (x_api_key : option str) :
  truthy x_api_key && negb (bool_decide (x_api_key = Some API_KEY)) = false →
  bool_decide (strip question = []) || (length question <? 3)%nat = false →
  ∃ tr self' r,
    get_fiscalite agent_call question x_api_key self =
      (EvLog (u "[QUESTION] " ++ question) :: EvAgent question :: tr, self', r) ∧
    ¬ forbidden r.
Proof.
  intros Hkey Hshort. unfold get_fiscalite. rewrite Hkey, Hshort.
  unfold mbind, method_mbind, method_bind, lift, agent_invoke, io_emit.
  destruct (agent_call (agent self) question) as [[tr agent'] [output|msg|]];
    simpl; eexists _, _, _; (split; [reflexivity|]); by intros [detail H].
Qed.

(** C4 (amended). When the key check passes, a question that is empty,
    made of white space only, or shorter than 3 characters in all (white
    space included) gets the fixed reply, and the agent is not called:
    the trace is empty and the object is as it was. *)
Theorem blank_or_short_question_is_rejected (question : str)
    (x_api_key : option str) :
  x_api_key = None ∨ x_api_key = Some [] ∨ x_api_key = Some API_KEY →
  Forall (fun c => isspace c = true) question ∨ (length question < 3)%nat →
  get_fiscalite agent_call question x_api_key self =
    ([], self, Return question_trop_courte).
Proof.
  intros Hkey Hshort. apply get_fiscalite_rejected; [by apply key_check_passes|].
  apply orb_true_iff. destruct Hshort as [Hblank | Hlen].
  - left. by apply bool_decide_eq_true, strip_all_space.
  - right. by apply Nat.ltb_lt.
Qed.

(** C10 (amended). The authorization failure is raised exactly when a
    non-empty key is supplied that differs from the secret; it is then
    raised before the question is looked at and before the agent is
    called; and without the header the request is handled as it is with
    the secret. *)
Theorem key_is_checked_when_supplied (question : str) (x_api_key : option str) :
  (forbidden (get_fiscalite agent_call question x_api_key self).2 ↔
     ∃ key, x_api_key = Some key ∧ key ≠ [] ∧ key ≠ API_KEY) ∧
  (forbidden (get_fiscalite agent_call question x_api_key self).2 →
     get_fiscalite agent_call question x_api_key self =
       ([], self, Raise (HTTPException 403 (u "Accès non autorisé. Clé invalide.")))) ∧
  get_fiscalite agent_call question None self =
    get_fiscalite agent_call question (Some API_KEY) self.
Proof.
  assert (forbidden (get_fiscalite agent_call question x_api_key self).2 ↔
          truthy x_api_key && negb (bool_decide (x_api_key = Some API_KEY)) = true)
    as Hiff.
  { destruct (truthy x_api_key && _) eqn:Hkey.
    - rewrite (get_fiscalite_forbidden _ _ Hkey). split; [done | by eexists].
    - split; [|done]. intros Hforbidden.
      destruct (bool_decide (strip question = []) || (length question <? 3)%nat)
        eqn:Hshort.
      + rewrite (get_fiscalite_rejected _ _ Hkey Hshort) in Hforbidden.
        by destruct Hforbidden.
      + destruct (get_fiscalite_forwarded _ _ Hkey Hshort)
          as (tr & self' & r & Hget & Hr).
        by rewrite Hget in Hforbidden. }
  split; [|split].
  - rewrite Hiff, andb_true_iff, negb_true_iff, bool_decide_eq_false. split.
    + intros [Htruthy Hdiff].
      destruct x_api_key as [[|c key]|];
        [discriminate Htruthy | | discriminate Htruthy].
      exists (c :: key). split; [reflexivity|]. split; [discriminate|].
      intros Heq. apply Hdiff. by rewrite Heq.
    + intros (key & -> & Hne & Hdiff). split.
      * destruct key; [congruence | reflexivity].
      * intros [= Heq]. by apply Hdiff.
  - rewrite Hiff. apply get_fiscalite_forbidden.
  - unfold get_fiscalite.
    assert (truthy (Some API_KEY)
            && negb (bool_decide (Some API_KEY = Some API_KEY)) = false) as ->.
    { rewrite bool_decide_eq_true_2 by reflexivity. apply andb_false_r. }
    reflexivity.
Qed.

End Endpoint.

(** ** The console loop and the response cache *)

Section Loop.

Variable lower : str → str.
Context {Agent : Type}.
Variable agent_call : Agent → str → list event * Agent * agent_result.

Ltac run_unfold :=
  unfold run_iteration, try_except_2, run_body, mbind, method_mbind,
    method_bind, mret, method_mret, method_ret, lift, vider_cache,
    agent_invoke, print, io_emit, io_ret.

Lemma clear_command_is_not_exit (x : str) :
  list_in x [u "vider cache"; u "reset"] = true →
  list_in x [u "exit"; u "quit"; u "q"] = false.
Proof.
  unfold list_in. cbn [existsb]. rewrite !orb_true_iff, !bool_decide_eq_true.
  intros [-> | [-> | H]]; [reflexivity | reflexivity | done].
Qed.

(** One pass of the loop never stores into the cache: it leaves it as it
    was, or empty. *)
Lemma run_iteration_cache (line : outcome str)
    (self : PremiumFiscalAssistant Agent) :
  let after := (run_iteration lower agent_call line self).1.2 in
  response_cache after = response_cache self ∨ response_cache after = ∅.
Proof.
  run_unfold. destruct line as [raw | [| |]]; cbn iota beta.
  - destruct (list_in _ [u "exit"; _; _]); [by left|].
    destruct (list_in _ [u "vider cache"; _]); [by right|].
    destruct (any _ _); [by left|]. cbn iota beta.
    destruct (agent_call _ _) as [[tr agent'] [output|msg|]];
      cbn iota beta; [by left | by right | by left].
  - by left.
  - by right.
  - by right.
Qed.

(** The command of the user clears the cache. *)
Lemma run_iteration_clear_command (raw : str)
    (self : PremiumFiscalAssistant Agent) :
  list_in (lower (strip raw)) [u "vider cache"; u "reset"] = true →
  response_cache (run_iteration lower agent_call (Return raw) self).1.2 = ∅ ∧
  (run_iteration lower agent_call (Return raw) self).2 = Return Continue.
Proof.
  intros Hcmd. run_unfold. cbn iota beta.
  by rewrite (clear_command_is_not_exit _ Hcmd), Hcmd.
Qed.

(** The catch-all handler clears the cache. *)
Lemma run_iteration_recovery (line : outcome str) (e : exn)
    (self : PremiumFiscalAssistant Agent) :
  (run_body lower agent_call line self).2 = Raise e →
  is_Exception e = true →
  response_cache (run_iteration lower agent_call line self).1.2 = ∅ ∧
  (run_iteration lower agent_call line self).2 = Return Continue.
Proof.
  unfold run_iteration, try_except_2.
  destruct (run_body lower agent_call line self) as [[tr self'] r].
  intros Hr He. simpl in Hr. subst r.
  destruct e; [done | |]; by run_unfold.
Qed.

(** One pass of the loop never reads the cache: with any other cache it
    prints the same, ends the same and leaves the agent the same. *)
Lemma run_iteration_ignores_cache (line : outcome str)
    (self : PremiumFiscalAssistant Agent) (cache : gmap str str) :
  let here := run_iteration lower agent_call line self in
  let there := run_iteration lower agent_call line (with_cache cache self) in
  there.1.1 = here.1.1 ∧ there.2 = here.2 ∧
  agent there.1.2 = agent here.1.2 ∧ es there.1.2 = es here.1.2.
Proof.
  run_unfold. unfold with_cache. destruct line as [raw | [| |]]; cbn iota beta.
  - destruct (list_in _ [u "exit"; _; _]); [done|].
    destruct (list_in _ [u "vider cache"; _]); [done|].
    destruct (any _ _); [done|]. cbn iota beta. cbn [agent].
    by destruct (agent_call _ _) as [[tr agent'] [output|msg|]].
  - done.
  - done.
  - done.
Qed.

Lemma run_loop_cache_empty (script : list (outcome str))
    (self : PremiumFiscalAssistant Agent) :
  response_cache self = ∅ →
  response_cache (run_loop lower agent_call script self).1.2 = ∅.
Proof.
  revert self. induction script as [|line script IH]; intros self Hempty.
  - done.
  - cbn [run_loop]. unfold mbind, method_mbind, method_bind.
    pose proof (run_iteration_cache line self) as Hcache.
    destruct (run_iteration lower agent_call line self) as [[tr self'] [ctl|e]];
      cbn [fst snd] in Hcache.
    + assert (response_cache self' = ∅) as Hempty'
        by (destruct Hcache; congruence).
      destruct ctl; [done|].
      specialize (IH self' Hempty').
      by destruct (run_loop lower agent_call script self') as [[tr' self''] r].
    + cbn [fst snd]. destruct Hcache; congruence.
Qed.

(** C6 (amended). The cache is created empty and no operation reads it or
    stores into it: no query is answered from it, and it is empty at every
    point of a session.  [vider_cache] is the only operation on it; the
    loop calls it on the command of the user ("vider cache", "reset") and
    in its catch-all recovery from an exception. *)
Theorem cache_is_only_ever_cleared (line : outcome str)
    (script : list (outcome str)) (self : PremiumFiscalAssistant Agent) :
  let after := (run_iteration lower agent_call line self).1.2 in
  (response_cache after = response_cache self ∨ response_cache after = ∅) ∧
  (∀ raw, line = Return raw →
     list_in (lower (strip raw)) [u "vider cache"; u "reset"] = true →
     response_cache after = ∅) ∧
  (∀ e, (run_body lower agent_call line self).2 = Raise e →
     is_Exception e = true → response_cache after = ∅) ∧
  (∀ cache,
     let there := run_iteration lower agent_call line (with_cache cache self) in
     there.1.1 = (run_iteration lower agent_call line self).1.1 ∧
     there.2 = (run_iteration lower agent_call line self).2 ∧
     agent there.1.2 = agent after) ∧
  (response_cache self = ∅ →
     response_cache (run lower agent_call script self).1.2 = ∅).
Proof.
  split; [apply run_iteration_cache|].
  split; [intros raw -> Hcmd; by apply run_iteration_clear_command|].
  split; [intros e Hraise He; by eapply run_iteration_recovery|].
  split.
  - intros cache.
    by destruct (run_iteration_ignores_cache line self cache) as (? & ? & ? & ?).
  - intros Hempty. unfold run, mbind, method_mbind, method_bind, lift, print, io_emit.
    cbn iota beta. pose proof (run_loop_cache_empty script self Hempty) as H.
    by destruct (run_loop lower agent_call script self) as [[tr self'] r].
Qed.

End Loop.

(** ** The agent executor *)

Section Cycle.

Variable llm : LanguageModel.
Variable ex : AgentExecutor.
Variable input : str.

(** The tool calls no tool itself. *)
Hypothesis tool_quiet : ∀ arg, tool_calls (func (tool ex) arg).1 = 0%nat.
Hypothesis stops_by_generation : early_stopping_method ex = generate.

(** How the cycle ends, with the observations [obs] that it gathered on
    its way: the model concluded, the model failed, the tool raised, or
    the budget is used up and the model is asked to synthesize. *)
Lemma reasoning_cycle_bounded (budget : nat) (obs0 : observations) :
  ∃ obs,
    (length obs ≤ budget)%nat ∧
    (tool_calls (reasoning_cycle llm ex input budget obs0).1 ≤ budget)%nat ∧
    Forall (fun o => (func (tool ex) o.1).2 = Return o.2) obs ∧
    (((length obs < budget)%nat ∧
      tool_calls (reasoning_cycle llm ex input budget obs0).1 = length obs ∧
      ∃ output,
        next_action llm (system_message ex) (memory ex) input (obs0 ++ obs)
          = Return (Conclude output) ∧
        (reasoning_cycle llm ex input budget obs0).2 = Return output)
     ∨
     ((length obs < budget)%nat ∧
      tool_calls (reasoning_cycle llm ex input budget obs0).1 = length obs ∧
      ∃ e,
        next_action llm (system_message ex) (memory ex) input (obs0 ++ obs)
          = Raise e ∧
        (reasoning_cycle llm ex input budget obs0).2 = Raise e)
     ∨
     ((length obs < budget)%nat ∧
      tool_calls (reasoning_cycle llm ex input budget obs0).1 = S (length obs) ∧
      ∃ arg e,
        next_action llm (system_message ex) (memory ex) input (obs0 ++ obs)
          = Return (CallTool arg) ∧
        (func (tool ex) arg).2 = Raise e ∧
        (reasoning_cycle llm ex input budget obs0).2 = Raise e)
     ∨
     (length obs = budget ∧
      tool_calls (reasoning_cycle llm ex input budget obs0).1 = budget ∧
      (reasoning_cycle llm ex input budget obs0).2
        = synthesize llm (system_message ex) (memory ex) input (obs0 ++ obs))).
Proof.
  revert obs0. induction budget as [|budget IH]; intros obs0; cbn [reasoning_cycle].
  - rewrite stops_by_generation. exists []. rewrite app_nil_r.
    split; [done|]. split; [done|]. split; [done|]. by right; right; right.
  - unfold mbind, io_mbind, io_bind, io_call, io_emit, mret, io_mret, io_ret.
    destruct (next_action _ _ _ _ obs0) as [[arg|answer]|e] eqn:Hnext;
      cbn [fst snd app].
    + pose proof (tool_quiet arg) as Hquiet.
      destruct (func (tool ex) arg) as [tr0 [text|e]] eqn:Htool;
        cbn [fst snd] in Hquiet |- *.
      * destruct (IH (obs0 ++ [(arg, text)]))
          as (obs & Hlen & Hcalls & Hobs & Hend).
        destruct (reasoning_cycle llm ex input budget (obs0 ++ [(arg, text)]))
          as [tr r]. cbn [fst snd] in *.
        assert (tool_calls (EvTool (name (tool ex)) arg :: tr0 ++ tr)
                = S (tool_calls tr)) as ->.
        { change (?x :: ?t ++ ?t') with ([x] ++ t ++ t').
          by rewrite !tool_calls_app, Hquiet. }
        exists ((arg, text) :: obs). rewrite <- app_assoc in Hend.
        split; [simpl; lia|]. split; [lia|].
        split; [constructor; [cbn [fst snd]; by rewrite Htool | done]|].
        cbn [length app] in *.
        destruct Hend as [(Hlt & Hn & Hr) | [(Hlt & Hn & Hr) |
                          [(Hlt & Hn & Hr) | (Heq & Hn & Hr)]]].
        -- left. split; [lia|]. split; [lia | done].
        -- right; left. split; [lia|]. split; [lia | done].
        -- right; right; left. split; [lia|]. split; [lia | done].
        -- right; right; right. split; [lia|]. split; [lia | done].
      * exists []. rewrite app_nil_r.
        assert (tool_calls (EvTool (name (tool ex)) arg :: tr0) = 1%nat) as ->.
        { change (?x :: ?t) with ([x] ++ t).
          by rewrite !tool_calls_app, Hquiet. }
        split; [simpl; lia|]. split; [lia|]. split; [done|].
        right; right; left. split; [simpl; lia|]. split; [done|].
        exists arg, e. by rewrite Htool.
    + exists []. rewrite app_nil_r. change (tool_calls []) with 0%nat.
      split; [simpl; lia|]. split; [lia|]. split; [done|].
      left. split; [simpl; lia|]. split; [done|]. by exists answer.
    + exists []. rewrite app_nil_r. change (tool_calls []) with 0%nat.
      split; [simpl; lia|]. split; [lia|]. split; [done|].
      right; left. split; [simpl; lia|]. split; [done|]. by exists e.
Qed.

(** The turn ends as its cycle does, and leaves the trace of the cycle. *)
Lemma executor_call_cycle :
  (executor_call llm ex input).1.1
    = (reasoning_cycle llm ex input (max_iterations ex) []).1 ∧
  (executor_call llm ex input).2
    = agent_result_of (reasoning_cycle llm ex input (max_iterations ex) []).2.
Proof.
  unfold executor_call.
  by destruct (reasoning_cycle llm ex input (max_iterations ex) [])
    as [tr [output|[]]].
Qed.

End Cycle.

(** C8, as amended.  The executor that [_init_agent] builds has the cap 4
    and stops by generation, and every turn of it ends after at most 4
    invocations of the tool [recherche_fiscale], each observation being
    what the tool returned.  A turn ends in one of four ways: the model
    concluded after fewer than 4 invocations, and its answer is the output;
    a call of the model failed, and the turn fails with it; the search of
    the tool was interrupted, and the turn with it; or the cap was reached
    with 4 observations, the model is asked once to synthesize an answer
    from them, and the turn ends as that call does: its text is the output,
    whatever it is, and its failure is the turn's. *)
Theorem agent_turn_is_capped (lower : str → str) (llm : LanguageModel)
    {Agent : Type} (self : PremiumFiscalAssistant Agent)
    (mem : ConversationMemory) (input : str) :
  max_iterations (with_memory mem (_init_agent lower self)) = 4%nat ∧
  early_stopping_method (with_memory mem (_init_agent lower self)) = generate ∧
  ∃ obs,
    (length obs ≤ 4)%nat ∧
    (tool_calls (executor_call llm (with_memory mem (_init_agent lower self)) input).1.1
       ≤ 4)%nat ∧
    Forall (fun o => (recherche_fiscale lower self o.1).2 = Return o.2) obs ∧
    (((length obs < 4)%nat ∧
      ∃ output,
        next_action llm (system_message (_init_agent lower self)) mem input obs
          = Return (Conclude output) ∧
        (executor_call llm (with_memory mem (_init_agent lower self)) input).2
          = AgentOutput output)
     ∨
     ((length obs < 4)%nat ∧
      ∃ e,
        next_action llm (system_message (_init_agent lower self)) mem input obs
          = Raise e ∧
        (executor_call llm (with_memory mem (_init_agent lower self)) input).2
          = agent_result_of (Raise e))
     ∨
     ((length obs < 4)%nat ∧
      ∃ arg e,
        next_action llm (system_message (_init_agent lower self)) mem input obs
          = Return (CallTool arg) ∧
        in_domain lower arg ∧ search_interrupted self arg e ∧
        (executor_call llm (with_memory mem (_init_agent lower self)) input).2
          = agent_result_of (Raise e))
     ∨
     (length obs = 4%nat ∧
      tool_calls
        (executor_call llm (with_memory mem (_init_agent lower self)) input).1.1
        = 4%nat ∧
      (executor_call llm (with_memory mem (_init_agent lower self)) input).2
        = agent_result_of
            (synthesize llm (system_message (_init_agent lower self)) mem input obs))).
Proof.
  split; [done|]. split; [done|].
  destruct (executor_call_cycle llm
              (with_memory mem (_init_agent lower self)) input) as [-> ->].
  change (max_iterations (with_memory mem (_init_agent lower self))) with 4%nat.
  destruct (reasoning_cycle_bounded llm
              (with_memory mem (_init_agent lower self)) input)
    with (budget := 4%nat) (obs0 := @nil (str * str))
    as (obs & Hlen & Hcalls & Hobs & Hend).
  - intros arg. apply recherche_fiscale_no_tool.
  - done.
  - exists obs. split; [done|]. split; [done|]. split; [done|].
    cbn [app] in Hend.
    destruct Hend as [(Hlt & _ & output & Hnext & ->) |
                      [(Hlt & _ & e & Hnext & ->) |
                       [(Hlt & _ & arg & e & Hnext & Htool & ->) |
                        (Heq & Hn & ->)]]].
    + left. split; [done|]. by exists output.
    + right; left. split; [done|]. by exists e.
    + right; right; left. split; [done|]. exists arg, e. split; [done|].
      cbn [with_memory _init_agent tool func] in Htool.
      destruct (recherche_fiscale_returns lower self arg)
        as [[text Htext] | (e' & He' & Hdomain & Hint)]; [congruence|].
      rewrite Htool in He'. injection He' as <-. done.
    + right; right; right. done.
Qed.

(** ** The properties on concrete queries *)

(** A greeting in front of a fiscal question: the greeting wins. *)
Lemma greeting_takes_precedence_witness :
  greets lower_latin1 (u "Bonjour, quel est le taux de la TVA ?") ∧
  has_token mots_cles_fiscaux (lower_latin1 (u "Bonjour, quel est le taux de la TVA ?")) ∧
  recherche_fiscale lower_latin1 assistant_demo
    (u "Bonjour, quel est le taux de la TVA ?") = ([], Return _gerer_salutation).
Proof.
  assert (greets lower_latin1 (u "Bonjour, quel est le taux de la TVA ?")) as Hgreet.
  { apply has_token_any. vm_compute. reflexivity. }
  split; [exact Hgreet|]. split.
  - apply has_token_any. vm_compute. reflexivity.
  - apply (greeting_takes_precedence lower_latin1 assistant_demo _ Hgreet).
Defined.

Lemma out_of_domain_is_refused_witness :
  out_of_domain lower_latin1 (u "Quelle est la capitale du Mali ?") ∧
  recherche_fiscale lower_latin1 assistant_demo
    (u "Quelle est la capitale du Mali ?") = ([], Return refus_hors_domaine).
Proof.
  assert (out_of_domain lower_latin1 (u "Quelle est la capitale du Mali ?")) as Hout.
  { split; apply no_token_any; vm_compute; reflexivity. }
  split; [exact Hout|].
  apply (out_of_domain_is_refused lower_latin1 assistant_demo _ Hout).
Defined.

(** The VAT scenario: the best hit answers "30 jours", and so does the
    assistant, though a second hit was retrieved. *)
Lemma top_candidate_answer_witness :
  in_domain lower_latin1 (u "Quels sont les délais pour la déclaration de TVA ?") ∧
  search_answers assistant_scenario
    (u "Quels sont les délais pour la déclaration de TVA ?")
    [hit_delai_tva; hit_taux_tva] ∧
  (_get_contextual_results assistant_scenario
     (u "Quels sont les délais pour la déclaration de TVA ?")).2
    = Return ([u "30 jours"; u "18 %"], Some 12%Q) ∧
  (recherche_fiscale lower_latin1 assistant_scenario
     (u "Quels sont les délais pour la déclaration de TVA ?")).2
    = Return (u "30 jours").
Proof.
  assert (in_domain lower_latin1
            (u "Quels sont les délais pour la déclaration de TVA ?")) as Hdomain.
  { split; [apply no_token_any | apply has_token_any]; vm_compute; reflexivity. }
  assert (search_answers assistant_scenario
            (u "Quels sont les délais pour la déclaration de TVA ?")
            [hit_delai_tva; hit_taux_tva]) as Hhits.
  { exists es_scenario. split; reflexivity. }
  assert ((_get_contextual_results assistant_scenario
             (u "Quels sont les délais pour la déclaration de TVA ?")).2
          = Return ([u "30 jours"; u "18 %"], Some 12%Q)) as Hengine.
  { vm_compute. reflexivity. }
  split; [exact Hdomain|]. split; [exact Hhits|]. split; [exact Hengine|].
  destruct (top_candidate_answer lower_latin1 assistant_scenario _ Hdomain)
    as [Hfirst _].
  destruct (Hfirst _ _ Hengine) as (r0 & hit0 & rest & Hr0 & Htext & _);
    [discriminate|].
  injection Hr0 as <-. exact Htext.
Defined.

Lemma search_failure_reads_as_not_found_witness :
  search_raises assistant_offline (u "tva") ∧
  search_answers assistant_empty_index (u "tva") [] ∧
  in_domain lower_latin1 (u "tva") ∧
  (_get_contextual_results assistant_offline (u "tva")).2 = Return ([], Some 0%Q) ∧
  (recherche_fiscale lower_latin1 assistant_offline (u "tva")).2
    = Return aucune_information ∧
  (recherche_fiscale lower_latin1 assistant_offline (u "tva")).2
    = (recherche_fiscale lower_latin1 assistant_empty_index (u "tva")).2.
Proof.
  assert (search_raises assistant_offline (u "tva")) as Hdown by (by left).
  assert (search_answers assistant_empty_index (u "tva") []) as Hempty.
  { eexists. split; reflexivity. }
  assert (in_domain lower_latin1 (u "tva")) as Hdomain.
  { split; [apply no_token_any | apply has_token_any]; vm_compute; reflexivity. }
  destruct (search_failure_reads_as_not_found lower_latin1
              assistant_offline assistant_empty_index (u "tva") Hdown Hempty)
    as [Hengine Hcaller].
  destruct (Hcaller Hdomain) as [Htext Hsame].
  split; [exact Hdown|]. split; [exact Hempty|]. split; [exact Hdomain|].
  split; [exact Hengine|]. split; [exact Htext | exact Hsame].
Defined.

Lemma upper_case_keywords_never_match_witness :
  ¬ greets lower_latin1 (u "Quel est le taux de l'IS ?") ∧
  u "IS" ∈ mots_cles_fiscaux ∧
  has_upper (u "IS") = true ∧
  ¬ occurs_in (u "IS") (lower_latin1 (u "Quel est le taux de l'IS ?")) ∧
  recherche_fiscale lower_latin1 assistant_demo (u "Quel est le taux de l'IS ?")
    = ([], Return refus_hors_domaine).
Proof.
  assert (¬ greets lower_latin1 (u "Quel est le taux de l'IS ?")) as Hgreet.
  { apply no_token_any. vm_compute. reflexivity. }
  assert (u "IS" ∈ mots_cles_fiscaux) as Hmot.
  { apply list_elem_of_In. vm_compute. tauto. }
  destruct (upper_case_keywords_never_match lower_latin1 assistant_demo
              (u "Quel est le taux de l'IS ?") lower_latin1_no_upper Hgreet)
    as [Hdead Hrefused].
  { apply no_lower_case_keyword. vm_compute. reflexivity. }
  split; [exact Hgreet|]. split; [exact Hmot|]. split; [reflexivity|].
  split; [|exact Hrefused].
  apply (Hdead _ _ Hmot). reflexivity.
Defined.



(** C4, as stated, fails: "a b" has 2 characters that are not white
    space, its length is 3, and the endpoint passes it on to the agent. *)
Lemma short_question_reaches_the_agent :
  (length (non_whitespace (u "a b")) < 3)%nat ∧
  agent_calls request_a_b.1.1 = 1%nat ∧
  request_a_b.2 ≠ Return question_trop_courte.
Proof.
  split; [vm_compute; lia|]. split; [vm_compute; reflexivity|].
  vm_compute. discriminate.
Qed.

Lemma blank_or_short_question_is_rejected_witness :
  get_fiscalite (executor_call llm_lookup_once) (u "IS") None assistant_demo =
    ([], assistant_demo, Return question_trop_courte).
Proof.
  apply (blank_or_short_question_is_rejected (executor_call llm_lookup_once)
           assistant_demo (u "IS") None).
  - by left.
  - right. vm_compute. lia.
Defined.

(** C10, as stated, fails: an empty key is supplied and differs from the
    secret, and the request is served. *)
Lemma empty_key_is_not_checked :
  (∃ key, Some [] = Some key ∧ key ≠ API_KEY) ∧
  ¬ forbidden request_empty_key.2.
Proof.
  split.
  - exists []. split; [done|]. vm_compute. discriminate.
  - intros [detail H]. vm_compute in H. discriminate.
Qed.

(** C6, as stated, fails: the second time the question is asked, the agent
    and the search are called again, and the cache holds nothing for it. *)
Lemma repeated_query_is_not_served_from_cache :
  agent_calls session_tva_twice.1.1 = 2%nat ∧
  searches session_tva_twice.1.1 = 2%nat ∧
  response_cache session_tva_twice.1.2 !! u "tva" = None.
Proof. repeat split; vm_compute; reflexivity. Qed.

Lemma cache_is_only_ever_cleared_witness :
  response_cache
    (run_iteration lower_latin1 (executor_call llm_lookup_once)
       (Return (u "  Vider Cache ")) assistant_demo).1.2 = ∅.
Proof.
  destruct (cache_is_only_ever_cleared lower_latin1 (executor_call llm_lookup_once)
              (Return (u "  Vider Cache ")) [] assistant_demo)
    as (_ & Hcommand & _).
  apply (Hcommand (u "  Vider Cache ")); [reflexivity|].
  vm_compute. reflexivity.
Defined.

(** C8, as stated, fails: with a language model that never concludes, the
    turn reaches the cap after 4 invocations of the tool, and it ends with
    what the model then generates: an empty answer when the model has
    nothing to say, and a failure when the model is unavailable. *)
Lemma capped_turn_may_end_empty_or_failed :
  (tool_calls
     (executor_call llm_silent
        (with_memory [] (_init_agent lower_latin1 assistant_demo)) (u "tva")).1.1
     = 4%nat ∧
   (executor_call llm_silent
      (with_memory [] (_init_agent lower_latin1 assistant_demo)) (u "tva")).2
     = AgentOutput []) ∧
  (tool_calls
     (executor_call llm_gone_at_the_end
        (with_memory [] (_init_agent lower_latin1 assistant_demo)) (u "tva")).1.1
     = 4%nat ∧
   (executor_call llm_gone_at_the_end
      (with_memory [] (_init_agent lower_latin1 assistant_demo)) (u "tva")).2
     = AgentFailed (u "Service unavailable")).
Proof. repeat split; vm_compute; reflexivity. Qed.

(** A turn that reaches the cap with a model that has something to say: 4
    tool invocations, and the answer synthesized from what the tool
    said. *)
Example agent_turn_at_the_cap :
  tool_calls
    (executor_call llm_never_concludes
       (with_memory [] (_init_agent lower_latin1 assistant_demo)) (u "tva")).1.1
    = 4%nat ∧
  (executor_call llm_never_concludes
     (with_memory [] (_init_agent lower_latin1 assistant_demo)) (u "tva")).2
    = AgentOutput (u "D'après la base fiscale : 30 jours").
Proof. split; vm_compute; reflexivity. Qed.

(** * Further properties of the code *)

(** ** The retrieval engine: what it prints and what it returns *)

Lemma mapM_lookup {A B} (f : A → option B) (l : list A) (k : list B)
    (i : nat) (x : A) :
  mapM f l = Some k → l !! i = Some x → k !! i = f x ∧ is_Some (f x).
Proof.
  intros Hall%mapM_Some Hx.
  destruct (Forall2_lookup_l _ _ _ _ _ Hall Hx) as (y & -> & Hy).
  by rewrite Hy.
Qed.

(** X1. When the search answers with hits that can be read, the engine
    returns the answer of every hit, in order, also beyond the third (it
    does not cut the list), while it prints a line for the first three
    only, numbered from 1, each with the score and the question of its
    hit. *)
Theorem engine_returns_every_answer {Agent : Type}
    (self : PremiumFiscalAssistant Agent) (query : str) (hits : list Hit)
    (answers : list str) (lines : list (Q * str)) :
  search_answers self query hits → hits ≠ [] →
  parsed hits = Some (answers, lines) →
  _get_contextual_results self query =
    (EvSearch (contextual_request query)
       :: EvPrint (LF ++ u "🔍 Résultats de recherche :")
       :: imap hit_line lines,
     Return (answers, fst <$> head lines)) ∧
  length answers = length hits ∧
  length (imap hit_line lines) = (3 `min` length hits)%nat ∧
  (∀ i hit, hits !! i = Some hit →
     answers !! i = answer_of hit ∧ is_Some (answer_of hit) ∧
     ((i < 3)%nat →
      ∃ score text,
        printed_of hit = Some (score, text) ∧
        imap hit_line lines !! i = Some (EvPrintHit (i + 1) score text))).
Proof.
  intros Hhits Hne Hparsed.
  split; [by apply (_get_contextual_results_parsed _ _ hits)|].
  apply parsed_Some in Hparsed as [Hanswers Hlines].
  split; [symmetry; by apply (length_mapM answer_of)|].
  split.
  { rewrite length_imap, <- (length_mapM _ _ _ Hlines), length_take. done. }
  intros i hit Hi.
  destruct (mapM_lookup _ _ _ _ _ Hanswers Hi) as [Ha Hsome].
  split; [done|]. split; [done|]. intros Hlt.
  assert (take 3 hits !! i = Some hit) as Hi' by (by rewrite lookup_take_lt).
  destruct (mapM_lookup _ _ _ _ _ Hlines Hi') as [Hl [[score text] Hprinted]].
  exists score, text. split; [done|].
  by rewrite list_lookup_imap, Hl, Hprinted.
Qed.

Lemma engine_returns_every_answer_witness :
  search_answers assistant_oversized (u "tva")
    [hit_taux_tva; hit_delai_tva; hit_taux_tva; hit_taux_tva] ∧
  (_get_contextual_results assistant_oversized (u "tva")).2 =
    Return ([u "18 %"; u "30 jours"; u "18 %"; u "18 %"], Some (7 # 2)) ∧
  length [u "18 %"; u "30 jours"; u "18 %"; u "18 %"] = 4%nat ∧
  length (imap hit_line [(7 # 2, u "Taux de TVA");
                         (12 : Q, u "délai déclaration TVA");
                         (7 # 2, u "Taux de TVA")]) = 3%nat.
Proof.
  assert (search_answers assistant_oversized (u "tva")
            [hit_taux_tva; hit_delai_tva; hit_taux_tva; hit_taux_tva]) as Hhits.
  { exists es_oversized. split; reflexivity. }
  split; [exact Hhits|].
  destruct (engine_returns_every_answer assistant_oversized (u "tva") _
              [u "18 %"; u "30 jours"; u "18 %"; u "18 %"]
              [(7 # 2, u "Taux de TVA"); (12 : Q, u "délai déclaration TVA");
               (7 # 2, u "Taux de TVA")] Hhits)
    as (Hres & Hlen & Hlines & _); [discriminate | vm_compute; reflexivity |].
  split; [by rewrite Hres|]. split; [exact Hlen | exact Hlines].
Defined.

(** What the search does for a query is one thing only. *)
Lemma search_answers_unique {Agent : Type} (self : PremiumFiscalAssistant Agent)
    (query : str) (hits hits' : list Hit) :
  search_answers self query hits → search_answers self query hits' → hits = hits'.
Proof. intros (c & Hc & Hr) (c' & Hc' & Hr'). congruence. Qed.

Lemma search_raises_not_answers {Agent : Type} (self : PremiumFiscalAssistant Agent)
    (query : str) (hits : list Hit) :
  search_raises self query → search_answers self query hits → False.
Proof.
  intros [Hes | (c & e & Hc & Hr & _)] (c' & Hc' & Hr'); congruence.
Qed.

Lemma search_interrupted_not_raises {Agent : Type}
    (self : PremiumFiscalAssistant Agent) (query : str) (e : exn) :
  search_interrupted self query e → search_raises self query → False.
Proof.
  intros (c & Hc & Hr & He) [Hes | (c' & e' & Hc' & Hr' & He')]; congruence.
Qed.

Lemma search_interrupted_not_answers {Agent : Type}
    (self : PremiumFiscalAssistant Agent) (query : str) (e : exn)
    (hits : list Hit) :
  search_interrupted self query e → search_answers self query hits → False.
Proof. intros (c & Hc & Hr & He) (c' & Hc' & Hr'). congruence. Qed.

(** The error line is none of the other lines of the engine. *)
Lemma error_line_is_no_header (text : str) :
  LF ++ u "🔍 Résultats de recherche :"
    ≠ u "⚠️ Erreur recherche Elasticsearch: " ++ text.
Proof. intros H. apply (f_equal head) in H. vm_compute in H. discriminate. Qed.

(** X2. The engine prints its error line exactly when something failed
    inside its [try]: the search call raised an [Exception] (or there is no
    client), or the search answered with hits that cannot be read.  It then
    returns the empty list with score 0: an empty answer and a failure give
    the same value, and the console alone tells them apart. *)
Theorem engine_error_line_iff_failure {Agent : Type}
    (self : PremiumFiscalAssistant Agent) (query : str) :
  ((∃ text, search_error_line text ∈ (_get_contextual_results self query).1) ↔
   (search_raises self query ∨
    ∃ hits, search_answers self query hits ∧ parsed hits = None)) ∧
  ((∃ text, search_error_line text ∈ (_get_contextual_results self query).1) →
   (_get_contextual_results self query).2 = Return ([], Some 0%Q)).
Proof.
  destruct (_get_contextual_results_cases self query)
    as [[Hraise [text ->]] | [(e & Hint & ->) | [[Hempty ->] |
        [(hit0 & rest & answers & lines & Hhits & Hparsed & ->) |
         (hit0 & rest & shown & text & Hhits & Hparsed & -> & Hall)]]]];
    cbn [fst snd].
  - split; [|done]. split; [by left|]. intros _. exists text.
    apply elem_of_app. right. apply list_elem_of_here.
  - split; [split|].
    + intros [text Hin]. apply list_elem_of_singleton in Hin. discriminate.
    + intros [Hraise | (hits & Hhits & _)].
      * destruct (search_interrupted_not_raises _ _ _ Hint Hraise).
      * destruct (search_interrupted_not_answers _ _ _ _ Hint Hhits).
    + intros [text Hin]. apply list_elem_of_singleton in Hin. discriminate.
  - split; [|done]. split.
    + intros [text Hin]. apply list_elem_of_singleton in Hin. discriminate.
    + intros [Hraise | (hits & Hhits & Hnone)].
      * destruct (search_raises_not_answers _ _ _ Hraise Hempty).
      * rewrite <- (search_answers_unique _ _ _ _ Hempty Hhits) in Hnone.
        discriminate.
  - assert (¬ ∃ text,
              search_error_line text
                ∈ EvSearch (contextual_request query)
                    :: EvPrint (LF ++ u "🔍 Résultats de recherche :")
                    :: imap hit_line lines) as Hno.
    { intros [text Hin].
      apply elem_of_cons in Hin as [Hin | Hin]; [discriminate|].
      apply elem_of_cons in Hin as [Hin | Hin].
      - apply (error_line_is_no_header text). unfold search_error_line in Hin.
        congruence.
      - apply elem_of_lookup_imap in Hin as (i & line & Hin & _). discriminate. }
    split; [split|]; [done | | done].
    intros [Hraise | (hits & Hhits' & Hnone)].
    + destruct (search_raises_not_answers _ _ _ Hraise Hhits).
    + rewrite <- (search_answers_unique _ _ _ _ Hhits Hhits') in Hnone. congruence.
  - split; [|done]. split.
    + intros _. right. by exists (hit0 :: rest).
    + intros _. exists text. apply list_elem_of_further, elem_of_app. right.
      apply list_elem_of_here.
Qed.

(** A hit without its question: the header and the line of the first hit
    are printed, then the error line, and nothing is returned. *)
Example engine_on_a_hit_without_question :
  search_answers assistant_malformed (u "tva")
    [hit_delai_tva; hit_without_question] ∧
  parsed [hit_delai_tva; hit_without_question] = None ∧
  _get_contextual_results assistant_malformed (u "tva") =
    ([EvSearch (contextual_request (u "tva"));
      EvPrint (LF ++ u "🔍 Résultats de recherche :");
      EvPrintHit 1 12 (u "délai déclaration TVA");
      search_error_line (u "'question'")],
     Return ([], Some 0%Q)).
Proof.
  split; [by exists es_malformed|]. split; vm_compute; reflexivity.
Qed.

(** ** The gate and the arbiter: further properties *)

Lemma Return_inj {A} (x y : A) : Return x = Return y → x = y.
Proof. by intros [= ->]. Qed.

Lemma fixed_messages_not_empty :
  _gerer_salutation ≠ [] ∧ refus_hors_domaine ≠ [] ∧ aucune_information ≠ [].
Proof.
  repeat split; intros H; apply (f_equal length) in H; vm_compute in H;
    discriminate.
Qed.

Lemma occurs_in_length (sub s : str) :
  occurs_in sub s → (length sub ≤ length s)%nat.
Proof. intros (pre & post & ->). rewrite !length_app. lia. Qed.

(** No token of the two lists is shorter than 2 characters. *)
Lemma tokens_min_length (t : str) :
  t ∈ salutations ∨ t ∈ mots_cles_fiscaux → (2 ≤ length t)%nat.
Proof.
  assert (forallb (fun t => (2 <=? length t)%nat) (salutations ++ mots_cles_fiscaux)
          = true) as Hall by (vm_compute; reflexivity).
  rewrite forallb_forall in Hall. intros Ht.
  apply Nat.leb_le, Hall, list_elem_of_In, elem_of_app. exact Ht.
Qed.

Section Arbiter.

Variable lower : str → str.
Context {Agent : Type}.
Variable self : PremiumFiscalAssistant Agent.

(** X3. [recherche_fiscale] raises only what interrupts the search of an
    in-domain query: an exception that is no [Exception], such as Ctrl-C,
    which the engine's handler lets through; the request is then all that
    shows.  Whatever else the search does, a text is returned, and it is
    empty only when the answer stored with the best hit is itself empty:
    the three fixed messages are not. *)
Theorem recherche_fiscale_raises_only_when_interrupted (query : str) :
  (∀ e, (recherche_fiscale lower self query).2 = Raise e ↔
        in_domain lower query ∧ search_interrupted self query e) ∧
  (∀ e, in_domain lower query → search_interrupted self query e →
        is_Exception e = false ∧
        recherche_fiscale lower self query
          = ([EvSearch (contextual_request query)], Raise e)) ∧
  ((∀ e, ¬ search_interrupted self query e) →
   ∃ text, (recherche_fiscale lower self query).2 = Return text) ∧
  ((recherche_fiscale lower self query).2 = Return [] →
   in_domain lower query ∧
   ∃ hit0 rest, search_answers self query (hit0 :: rest) ∧
                answer_of hit0 = Some []).
Proof.
  destruct fixed_messages_not_empty as (Hgreeting & Hrefusal & Hnotfound).
  assert (∀ e, in_domain lower query → search_interrupted self query e →
               recherche_fiscale lower self query
                 = ([EvSearch (contextual_request query)], Raise e)) as Hint.
  { intros e Hdomain He.
    destruct (recherche_fiscale_in_domain_trace lower self _ Hdomain) as [Htr Hr].
    rewrite (_get_contextual_results_interrupted _ _ _ He) in Htr, Hr.
    destruct (recherche_fiscale lower self query) as [tr r].
    cbn [fst snd] in *. by subst. }
  split; [|split; [|split]].
  - intros e. split.
    + intros Hraise.
      destruct (recherche_fiscale_returns lower self query)
        as [[text Htext] | (e' & He' & Hdomain & He)]; [congruence|].
      rewrite Hraise in He'. injection He' as <-. done.
    + intros [Hdomain He]. by rewrite (Hint e Hdomain He).
  - intros e Hdomain He. split; [|by apply Hint].
    by destruct He as (client & _ & _ & He).
  - intros Hnever.
    destruct (recherche_fiscale_returns lower self query)
      as [Htext | (e & _ & _ & He)]; [done|]. destruct (Hnever e He).
  - intros Hempty.
    destruct (gate_trichotomy lower query) as [Hgreet | [[Hno Hout] | Hdomain]].
    + rewrite (greeting_precedence lower self _ Hgreet) in Hempty.
      cbn [snd] in Hempty. apply Return_inj in Hempty. destruct (Hgreeting Hempty).
    + rewrite (recherche_fiscale_out_of_domain lower self _ Hno Hout) in Hempty.
      cbn [snd] in Hempty. apply Return_inj in Hempty. destruct (Hrefusal Hempty).
    + split; [done|].
      destruct (recherche_fiscale_in_domain_trace lower self _ Hdomain) as [_ Hr].
      rewrite Hr in Hempty.
      destruct (_get_contextual_results self query).2
        as [[[|r0 responses] score]|e] eqn:Hres; [| |discriminate].
      * apply Return_inj in Hempty. destruct (Hnotfound Hempty).
      * apply Return_inj in Hempty. subst r0.
        destruct (_get_contextual_results_returns self query _ _ Hres)
          as [[Hnil _] | (hit0 & rest & lines & Hhits & Hparsed & _)];
          [discriminate|].
        destruct (parsed_first_line _ _ _ _ Hparsed)
          as (a0 & answers' & line0 & lines' & Heq & Ha0 & _ & _).
        injection Heq as <- _. by exists hit0, rest.
Qed.

(** X4. One call of [recherche_fiscale] sends at most one search request:
    exactly one when the query is in the domain and there is a client, none
    otherwise; and the request carries the query as it was typed (not
    lower-cased), for the index of the assistant, with size 3. *)
Theorem recherche_fiscale_search_budget (query : str) :
  (searches (recherche_fiscale lower self query).1 = 1%nat ↔
     in_domain lower query ∧ es self ≠ None) ∧
  (searches (recherche_fiscale lower self query).1 ≤ 1)%nat ∧
  (∀ req, EvSearch req ∈ (recherche_fiscale lower self query).1 →
     req = contextual_request query ∧
     multi_match_query req = query ∧ size req = 3%nat ∧
     index req = u "assistant_fiscal_v2").
Proof.
  destruct (gate_trichotomy lower query) as [Hgreet | [[Hno Hout] | Hdomain]].
  - rewrite (greeting_precedence lower self _ Hgreet).
    cbn [fst]. split; [|split].
    + split; [done | by intros [[Hno _] _]].
    + unfold searches. cbn. lia.
    + intros req Hin. by apply not_elem_of_nil in Hin.
  - rewrite (recherche_fiscale_out_of_domain lower self _ Hno Hout).
    cbn [fst]. split; [|split].
    + split; [done | by intros [[_ Hyes] _]].
    + unfold searches. cbn. lia.
    + intros req Hin. by apply not_elem_of_nil in Hin.
  - destruct (recherche_fiscale_in_domain_trace lower self _ Hdomain) as [-> _].
    destruct (_get_contextual_results_searches self query) as [Hcount Hreq].
    rewrite Hcount. split; [|split].
    + destruct (es self); split; try done; by intros [_ ?].
    + destruct (es self); lia.
    + intros req Hin. by rewrite (Hreq req Hin).
Qed.

(** X5. A query whose lower-cased text has fewer than 2 characters (the
    empty query among them) is refused as out of domain, without any
    search: no greeting token and no keyword is that short. *)
Theorem short_query_is_refused (query : str) :
  (length (lower query) < 2)%nat →
  recherche_fiscale lower self query = ([], Return refus_hors_domaine).
Proof.
  intros Hshort. apply recherche_fiscale_out_of_domain.
  - intros (t & Ht & Hocc). apply occurs_in_length in Hocc.
    pose proof (tokens_min_length t (or_introl Ht)). lia.
  - intros (t & Ht & Hocc). apply occurs_in_length in Hocc.
    pose proof (tokens_min_length t (or_intror Ht)). lia.
Qed.

(** X6. The tokens are matched as substrings, not as words: a text that
    contains a greeting anywhere, also inside a longer word, is answered
    with the greeting, provided lower-casing acts on the three parts
    separately. *)
Theorem greeting_inside_longer_text (pre q post : str) :
  lower (pre ++ q ++ post) = lower pre ++ lower q ++ lower post →
  greets lower q →
  recherche_fiscale lower self (pre ++ q ++ post) = ([], Return _gerer_salutation).
Proof.
  intros Hlower (t & Ht & a & b & Hq).
  assert (any (fun t => str_in t (lower (pre ++ q ++ post))) salutations = true)
    as Hgreet.
  { apply has_token_any. exists t. split; [done|].
    exists (lower pre ++ a), (b ++ lower post).
    rewrite Hlower, Hq. by rewrite <- !app_assoc. }
  unfold recherche_fiscale. by rewrite Hgreet.
Qed.

End Arbiter.

(** Ctrl-C during the search of an in-domain query goes through the
    arbiter. *)
Lemma recherche_fiscale_raises_only_when_interrupted_witness :
  in_domain lower_latin1 (u "tva") ∧
  search_interrupted assistant_interrupted (u "tva") KeyboardInterrupt ∧
  recherche_fiscale lower_latin1 assistant_interrupted (u "tva")
    = ([EvSearch (contextual_request (u "tva"))], Raise KeyboardInterrupt).
Proof.
  assert (in_domain lower_latin1 (u "tva")) as Hdomain.
  { split; [apply no_token_any | apply has_token_any]; vm_compute; reflexivity. }
  assert (search_interrupted assistant_interrupted (u "tva") KeyboardInterrupt)
    as Hint.
  { exists es_interrupted. repeat split. }
  split; [exact Hdomain|]. split; [exact Hint|].
  destruct (recherche_fiscale_raises_only_when_interrupted lower_latin1
              assistant_interrupted (u "tva")) as (_ & Hraise & _).
  destruct (Hraise KeyboardInterrupt Hdomain Hint) as [_ Hres]. exact Hres.
Defined.

Lemma short_query_is_refused_witness :
  recherche_fiscale lower_latin1 assistant_demo [] = ([], Return refus_hors_domaine).
Proof.
  apply (short_query_is_refused lower_latin1 assistant_demo []).
  vm_compute. lia.
Defined.

(** A question about a recipe greets: "thiéboudienne" contains "hi". *)
Lemma greeting_inside_longer_text_witness :
  recherche_fiscale lower_latin1 assistant_demo
    (u "quelle est la meilleure recette de t" ++ u "hi" ++ u "éboudienne")
    = ([], Return _gerer_salutation).
Proof.
  apply (greeting_inside_longer_text lower_latin1 assistant_demo
           (u "quelle est la meilleure recette de t") (u "hi") (u "éboudienne")).
  - unfold lower_latin1. by rewrite !map_app.
  - apply has_token_any. vm_compute. reflexivity.
Defined.

(** ** The console loop: how a session goes and how it ends *)

Ltac loop_unfold :=
  unfold run_iteration, try_except_2, run_body, mbind, method_mbind,
    method_bind, mret, method_mret, method_ret, lift, vider_cache,
    agent_invoke, print, io_emit, io_ret.

Section Session.

Variable lower : str → str.
Context {Agent : Type}.
Variable agent_call : Agent → str → list event * Agent * agent_result.

(** One pass of the loop never raises, and it breaks out of the loop
    exactly on a line that ends the session or on an agent call that is
    interrupted. *)
Lemma run_iteration_ctl (line : outcome str)
    (self : PremiumFiscalAssistant Agent) :
  (run_iteration lower agent_call line self).2 =
    Return (if ends_session lower line
               || interrupts_agent lower agent_call line self
            then Break else Continue).
Proof.
  unfold interrupts_agent, consults, ends_session, salutations. loop_unfold.
  destruct line as [raw | [| |]]; cbn iota beta; try reflexivity.
  destruct (list_in _ [u "exit"; _; _]); [reflexivity|].
  destruct (list_in _ [u "vider cache"; _]); [reflexivity|].
  destruct (any _ _); [reflexivity|]. cbn iota beta.
  by destruct (agent_call _ _) as [[tr agent'] [output|msg|]].
Qed.

Lemma run_loop_returns (script : list (outcome str))
    (self : PremiumFiscalAssistant Agent) :
  ∃ status, (run_loop lower agent_call script self).2 = Return status.
Proof.
  revert self. induction script as [|line script IH]; intros self;
    [by eexists|].
  cbn [run_loop]. unfold mbind, method_mbind, method_bind.
  pose proof (run_iteration_ctl line self) as Hctl.
  destruct (run_iteration lower agent_call line self) as [[tr self'] r].
  cbn [snd] in Hctl. subst r.
  destruct (_ || _); cbn iota beta; [by eexists|].
  destruct (IH self') as [status Hstatus].
  destruct (run_loop lower agent_call script self') as [[tr' self''] r'].
  by exists status.
Qed.

Lemma run_loop_finished (script : list (outcome str))
    (self : PremiumFiscalAssistant Agent) :
  existsb (ends_session lower) script = true →
  (run_loop lower agent_call script self).2 = Return Finished.
Proof.
  revert self. induction script as [|line script IH]; intros self; [done|].
  cbn [run_loop existsb]. unfold mbind, method_mbind, method_bind.
  pose proof (run_iteration_ctl line self) as Hctl.
  destruct (run_iteration lower agent_call line self) as [[tr self'] r].
  cbn [snd] in Hctl. subst r. intros Hends.
  destruct (ends_session lower line); cbn [orb] in *; cbn iota beta;
    [reflexivity|].
  destruct (interrupts_agent lower agent_call line self); cbn iota beta;
    [reflexivity|].
  specialize (IH self' Hends).
  by destruct (run_loop lower agent_call script self') as [[tr' self''] r'].
Qed.

Lemma run_loop_status (script : list (outcome str))
    (self : PremiumFiscalAssistant Agent) :
  (∀ a x, (agent_call a x).2 ≠ AgentInterrupted) →
  (run_loop lower agent_call script self).2 =
    Return (if existsb (ends_session lower) script then Finished else Waiting).
Proof.
  intros Hcalm.
  assert (∀ line self', interrupts_agent lower agent_call line self' = false)
    as Hnever.
  { intros line self'. unfold interrupts_agent.
    destruct (consults lower line) as [x|]; [|done].
    pose proof (Hcalm (agent self') x) as Hx.
    by destruct (agent_call (agent self') x).2. }
  revert self. induction script as [|line script IH]; intros self; [done|].
  cbn [run_loop existsb]. unfold mbind, method_mbind, method_bind.
  pose proof (run_iteration_ctl line self) as Hctl.
  destruct (run_iteration lower agent_call line self) as [[tr self'] r].
  cbn [snd] in Hctl. subst r. rewrite Hnever, orb_false_r.
  destruct (ends_session lower line); cbn iota beta; [reflexivity|].
  specialize (IH self').
  destruct (run_loop lower agent_call script self') as [[tr' self''] r'].
  exact IH.
Qed.

(** The loop over a script in two parts: when the first part leaves the
    loop waiting, the second part is run from where the first ended. *)
Lemma run_loop_app (before rest : list (outcome str))
    (self : PremiumFiscalAssistant Agent) :
  (run_loop lower agent_call before self).2 = Return Waiting →
  (run_loop lower agent_call (before ++ rest) self).2 =
    (run_loop lower agent_call rest
       (run_loop lower agent_call before self).1.2).2.
Proof.
  revert self. induction before as [|line before IH]; intros self; [done|].
  cbn [app run_loop]. unfold mbind, method_mbind, method_bind.
  destruct (run_iteration lower agent_call line self) as [[tr self'] [[|]|e]];
    [done | | done].
  specialize (IH self').
  destruct (run_loop lower agent_call before self') as [[tr1 self1] r1].
  destruct (run_loop lower agent_call (before ++ rest) self')
    as [[tr2 self2] r2].
  cbn [fst snd] in *. exact IH.
Qed.

(** [run] is the banner and then the loop. *)
Lemma run_run_loop (script : list (outcome str))
    (self : PremiumFiscalAssistant Agent) :
  (run lower agent_call script self).2
    = (run_loop lower agent_call script self).2 ∧
  (run lower agent_call script self).1.2
    = (run_loop lower agent_call script self).1.2.
Proof.
  unfold run, mbind, method_mbind, method_bind, lift, print, io_emit.
  cbn iota beta.
  by destruct (run_loop lower agent_call script self) as [[tr self'] r].
Qed.

(** X7. [run] never raises.  The session ends as soon as a line is an exit
    command ("exit", "quit", "q", in any case and with blanks around) or
    Ctrl-C at the prompt, and also when a call of the agent is interrupted
    from the keyboard.  Nothing else ends it: when no call of the agent is
    interrupted, the session has ended exactly when some line is an exit
    command or Ctrl-C at the prompt; after a failure of the agent or any
    exception of [input()], the end of input included, the loop asks
    again. *)
Theorem session_ends_on_exit_or_interrupt (script : list (outcome str))
    (self : PremiumFiscalAssistant Agent) :
  (∃ status, (run lower agent_call script self).2 = Return status) ∧
  (existsb (ends_session lower) script = true →
   (run lower agent_call script self).2 = Return Finished) ∧
  (∀ before line after,
     script = before ++ line :: after →
     (run_loop lower agent_call before self).2 = Return Waiting →
     interrupts_agent lower agent_call line
       (run_loop lower agent_call before self).1.2 = true →
     (run lower agent_call script self).2 = Return Finished) ∧
  ((∀ a x, (agent_call a x).2 ≠ AgentInterrupted) →
   (run lower agent_call script self).2 =
     Return (if existsb (ends_session lower) script then Finished else Waiting)).
Proof.
  destruct (run_run_loop script self) as [-> _].
  split; [apply run_loop_returns|].
  split; [apply run_loop_finished|].
  split; [|apply run_loop_status].
  intros before line after -> Hwaiting Hint.
  rewrite (run_loop_app _ _ _ Hwaiting).
  cbn [run_loop]. unfold mbind, method_mbind, method_bind.
  pose proof (run_iteration_ctl line
                (run_loop lower agent_call before self).1.2) as Hctl.
  destruct (run_iteration lower agent_call line _) as [[tr self'] r].
  cbn [snd] in Hctl. subst r. by rewrite Hint, orb_true_r.
Qed.

(** X8. Once a line has ended the session, the lines after it are not
    read: they change neither what is printed, nor the object, nor the
    result. *)
Theorem nothing_is_read_after_the_end (before after : list (outcome str))
    (line : outcome str) (self : PremiumFiscalAssistant Agent) :
  ends_session lower line = true →
  run_loop lower agent_call (before ++ line :: after) self =
    run_loop lower agent_call (before ++ [line]) self.
Proof.
  intros Hend. revert self.
  induction before as [|first before IH]; intros self; cbn [app run_loop];
    unfold mbind, method_mbind, method_bind.
  - pose proof (run_iteration_ctl line self) as Hctl.
    rewrite Hend in Hctl. cbn [orb] in Hctl.
    destruct (run_iteration lower agent_call line self) as [[tr self'] r].
    cbn [snd] in Hctl. by subst r.
  - destruct (run_iteration lower agent_call first self) as [[tr self'] [[|]|e]];
      [reflexivity | | reflexivity].
    by rewrite (IH self').
Qed.

(** X9. A command, a greeting, Ctrl-C or an exception of [input()] never
    reaches the agent: the executor and its memory are left as they were. *)
Theorem commands_and_greetings_skip_the_agent (line : outcome str)
    (self : PremiumFiscalAssistant Agent) :
  consults lower line = None →
  agent (run_iteration lower agent_call line self).1.2 = agent self ∧
  agent_calls (run_iteration lower agent_call line self).1.1 = 0%nat.
Proof.
  unfold consults, salutations. loop_unfold.
  destruct line as [raw | [| |]]; cbn iota beta; try done.
  destruct (list_in _ [u "exit"; _; _]); [done|].
  destruct (list_in _ [u "vider cache"; _]); [done|].
  by destruct (any _ _).
Qed.

(** X10. Any other line is handed to the agent without its surrounding
    blanks, in its own case.  The answer is printed; a failure of the agent
    is recovered: its text is printed with the advice to rephrase, the
    cache is cleared, what the agent did to its own state stays, and the
    loop goes on; an interrupt of the agent from the keyboard prints the
    farewell and leaves the loop. *)
Theorem console_turn (line : outcome str) (x : str) (tr : list event)
    (agent' : Agent) (r : agent_result) (self : PremiumFiscalAssistant Agent) :
  consults lower line = Some x →
  agent_call (agent self) x = (tr, agent', r) →
  (∃ raw, line = Return raw ∧ x = strip raw) ∧
  run_iteration lower agent_call line self =
    match r with
    | AgentOutput output =>
        ([EvInput (LF ++ u "Votre question fiscale : ");
          EvPrint (LF ++ u "🔍 Consultation de la base fiscale...");
          EvAgent x] ++ tr ++
         [EvPrint (LF ++ u "📌 Réponse :" ++ u " " ++ output)],
         {| es := es self; agent := agent';
            response_cache := response_cache self;
            last_query := last_query self |},
         Return Continue)
    | AgentFailed msg =>
        ([EvInput (LF ++ u "Votre question fiscale : ");
          EvPrint (LF ++ u "🔍 Consultation de la base fiscale...");
          EvAgent x] ++ tr ++
         [EvPrint (LF ++ u "⚠️ Une erreur est survenue : " ++ msg);
          EvPrint (u "Veuillez reformuler votre question ou contacter le support technique.");
          EvPrint (u "🗑️ Cache vidé avec succès !")],
         {| es := es self; agent := agent';
            response_cache := ∅;
            last_query := last_query self |},
         Return Continue)
    | AgentInterrupted =>
        ([EvInput (LF ++ u "Votre question fiscale : ");
          EvPrint (LF ++ u "🔍 Consultation de la base fiscale...");
          EvAgent x] ++ tr ++
         [EvPrint (LF ++ LF ++ u "Merci d'avoir utilisé l'Assistant Fiscal Premium. Au revoir !")],
         {| es := es self; agent := agent';
            response_cache := response_cache self;
            last_query := last_query self |},
         Return Break)
    end.
Proof.
  unfold consults, salutations. loop_unfold.
  destruct line as [raw | e]; cbn iota beta; [|done].
  destruct (list_in _ [u "exit"; _; _]); [done|].
  destruct (list_in _ [u "vider cache"; _]); [done|].
  destruct (any _ _); [done|]. cbn iota beta.
  intros [= <-] Hcall. split; [by exists raw|].
  rewrite Hcall. destruct r as [output|msg|]; cbn iota beta.
  - cbn [app]. reflexivity.
  - cbn [app exn_str agent es last_query response_cache]. reflexivity.
  - cbn [app agent es last_query response_cache]. reflexivity.
Qed.

End Session.

(** Ctrl-C while the agent works on the first question: the session is
    over, and the second line is not read. *)
Lemma session_ends_on_exit_or_interrupt_witness :
  (run lower_latin1 agent_interrupted [Return (u "tva"); Return (u "tva")]
     assistant_demo).2 = Return Finished ∧
  agent_calls
    (run lower_latin1 agent_interrupted [Return (u "tva"); Return (u "tva")]
       assistant_demo).1.1 = 1%nat.
Proof.
  split; [|vm_compute; reflexivity].
  destruct (session_ends_on_exit_or_interrupt lower_latin1 agent_interrupted
              [Return (u "tva"); Return (u "tva")] assistant_demo)
    as (_ & _ & Hint & _).
  apply (Hint [] (Return (u "tva")) [Return (u "tva")]).
  - reflexivity.
  - reflexivity.
  - vm_compute. reflexivity.
Defined.

Lemma nothing_is_read_after_the_end_witness :
  run_loop lower_latin1 (executor_call llm_lookup_once)
    ([Return (u "tva")] ++ Return (u " Quit ") :: [Return (u "tva"); Return (u "reset")])
    assistant_demo =
  run_loop lower_latin1 (executor_call llm_lookup_once)
    ([Return (u "tva")] ++ [Return (u " Quit ")]) assistant_demo.
Proof.
  apply (nothing_is_read_after_the_end lower_latin1 (executor_call llm_lookup_once)
           [Return (u "tva")] [Return (u "tva"); Return (u "reset")]
           (Return (u " Quit ")) assistant_demo).
  vm_compute. reflexivity.
Defined.

Lemma commands_and_greetings_skip_the_agent_witness :
  agent (run_iteration lower_latin1 (executor_call llm_lookup_once)
           (Return (u "Bonjour, la TVA ?")) assistant_demo).1.2
    = agent assistant_demo ∧
  agent_calls (run_iteration lower_latin1 (executor_call llm_lookup_once)
                 (Return (u "Bonjour, la TVA ?")) assistant_demo).1.1 = 0%nat.
Proof.
  apply (commands_and_greetings_skip_the_agent lower_latin1
           (executor_call llm_lookup_once) (Return (u "Bonjour, la TVA ?"))
           assistant_demo).
  vm_compute. reflexivity.
Defined.

Lemma console_turn_witness :
  run_iteration lower_latin1 agent_broken (Return (u "  Taux de TVA ? "))
    assistant_demo =
    ([EvInput (LF ++ u "Votre question fiscale : ");
      EvPrint (LF ++ u "🔍 Consultation de la base fiscale...");
      EvAgent (u "Taux de TVA ?")] ++ [] ++
     [EvPrint (LF ++ u "⚠️ Une erreur est survenue : " ++ u "Rate limit reached");
      EvPrint (u "Veuillez reformuler votre question ou contacter le support technique.");
      EvPrint (u "🗑️ Cache vidé avec succès !")],
     {| es := es assistant_demo; agent := agent assistant_demo;
        response_cache := ∅;
        last_query := last_query assistant_demo |},
     Return Continue).
Proof.
  apply (console_turn lower_latin1 agent_broken (Return (u "  Taux de TVA ? "))
           (u "Taux de TVA ?") [] (agent assistant_demo)
           (AgentFailed (u "Rate limit reached")) assistant_demo).
  - vm_compute. reflexivity.
  - reflexivity.
Defined.

(** ** The endpoint: what it passes on *)

Section Forwarding.

Context {Agent : Type}.
Variable agent_call : Agent → str → list event * Agent * agent_result.
Variable self : PremiumFiscalAssistant Agent.

(** X11. A question of at least 3 characters that is not all white space
    goes to the agent as it was received: blanks, case, greetings and the
    commands of the console included.  The output of the agent is the
    message of the reply.  A failure of the agent is not caught, and
    neither is an interrupt: it leaves the endpoint as an exception, and no
    answer is logged. *)
Theorem endpoint_forwards_question_as_received (question : str)
    (x_api_key : option str) (tr : list event) (agent' : Agent)
    (r : agent_result) :
  x_api_key = None ∨ x_api_key = Some [] ∨ x_api_key = Some API_KEY →
  ¬ Forall (fun c => isspace c = true) question →
  (3 ≤ length question)%nat →
  agent_call (agent self) question = (tr, agent', r) →
  get_fiscalite agent_call question x_api_key self =
    match r with
    | AgentOutput output =>
        ([EvLog (u "[QUESTION] " ++ question); EvAgent question] ++ tr ++
         [EvLog (u "[RÉPONSE] " ++ output)],
         {| es := es self; agent := agent';
            response_cache := response_cache self;
            last_query := last_query self |},
         Return {| message := output |})
    | AgentFailed msg =>
        ([EvLog (u "[QUESTION] " ++ question); EvAgent question] ++ tr,
         {| es := es self; agent := agent';
            response_cache := response_cache self;
            last_query := last_query self |},
         Raise (Exception msg))
    | AgentInterrupted =>
        ([EvLog (u "[QUESTION] " ++ question); EvAgent question] ++ tr,
         {| es := es self; agent := agent';
            response_cache := response_cache self;
            last_query := last_query self |},
         Raise KeyboardInterrupt)
    end.
Proof.
  intros Hkey Hblank Hlen Hcall. apply key_check_passes in Hkey.
  assert (bool_decide (strip question = []) || (length question <? 3)%nat = false)
    as Hvalid.
  { apply orb_false_iff. split.
    - apply bool_decide_eq_false. by rewrite strip_all_space.
    - by apply Nat.ltb_ge. }
  unfold get_fiscalite. rewrite Hkey, Hvalid.
  unfold mbind, method_mbind, method_bind, mret, method_mret, method_ret, lift,
    agent_invoke, io_emit.
  rewrite Hcall. destruct r as [output|msg|]; cbn iota beta.
  - cbn [app]. reflexivity.
  - cbn [app]. reflexivity.
  - cbn [app]. reflexivity.
Qed.

End Forwarding.

Lemma endpoint_forwards_question_as_received_witness :
  get_fiscalite agent_broken (u " Bonjour ") None assistant_demo =
    ([EvLog (u "[QUESTION] " ++ u " Bonjour "); EvAgent (u " Bonjour ")] ++ [],
     {| es := es assistant_demo; agent := agent assistant_demo;
        response_cache := response_cache assistant_demo;
        last_query := last_query assistant_demo |},
     Raise (Exception (u "Rate limit reached"))).
Proof.
  apply (endpoint_forwards_question_as_received agent_broken assistant_demo
           (u " Bonjour ") None [] (agent assistant_demo)
           (AgentFailed (u "Rate limit reached"))).
  - by left.
  - intros Hblank. apply strip_all_space in Hblank.
    vm_compute in Hblank. discriminate.
  - vm_compute. lia.
  - reflexivity.
Defined.

(** ** The connection to Elasticsearch *)

Ltac init_unfold :=
  unfold _init_elasticsearch, try_except, io_call, mbind, io_mbind, io_bind,
    mret, io_mret, io_ret, io_raise, print, io_emit.

Lemma _init_elasticsearch_cases (new_client : outcome es_client) :
  _init_elasticsearch new_client =
    match new_client with
    | Raise e => connection_failure e
    | Return es =>
        match ping es with
        | Raise e => connection_failure e
        | Return false =>
            connection_failure
              (Exception (u "❌ Impossible de se connecter à Elasticsearch"))
        | Return true =>
            match indices_exists es (u "assistant_fiscal_v2") with
            | Raise e => connection_failure e
            | Return present =>
                ((if present then []
                  else [EvPrint (u "⚠️ L'index 'assistant_fiscal_v2' n'existe pas. Créez-le avec le mapping approprié.")])
                 ++ [EvPrint (u "✅ Connexion Elasticsearch établie")],
                 Return (Some (search es)))
            end
        end
    end.
Proof.
  init_unfold. unfold connection_failure.
  destruct new_client as [es|e]; cbn [negb app fst snd].
  2:{ by destruct e. }
  destruct (ping es) as [[|]|e]; cbn [negb app fst snd is_Exception exn_str].
  - destruct (indices_exists es _) as [[|]|e]; cbn [negb app fst snd];
      [reflexivity | reflexivity | by destruct e].
  - reflexivity.
  - by destruct e.
Qed.

Lemma connection_failure_no_client (e : exn) (client : Elasticsearch) :
  (connection_failure e).2 ≠ Return (Some client).
Proof. unfold connection_failure. by destruct (is_Exception e). Qed.

Lemma connection_failure_raises (e e' : exn) :
  (connection_failure e).2 = Raise e' → is_Exception e' = false.
Proof.
  unfold connection_failure. destruct (is_Exception e) eqn:He; [done|].
  by intros [= <-].
Qed.

(** X12. [_init_elasticsearch] gives a client exactly when the constructor
    gave one, [ping] answered true and the check of the index did not
    raise.  A missing index does not stop it: a warning is printed and the
    client is kept.  Every [Exception] on the way is swallowed into [None];
    only an exception that is no [Exception] gets out. *)
Theorem _init_elasticsearch_connects (new_client : outcome es_client) :
  (∀ client,
     (_init_elasticsearch new_client).2 = Return (Some client) ↔
     ∃ es, new_client = Return es ∧ ping es = Return true ∧
           (∃ present, indices_exists es (u "assistant_fiscal_v2") = Return present) ∧
           client = search es) ∧
  (∀ es, new_client = Return es → ping es = Return true →
         indices_exists es (u "assistant_fiscal_v2") = Return false →
         _init_elasticsearch new_client =
           ([EvPrint (u "⚠️ L'index 'assistant_fiscal_v2' n'existe pas. Créez-le avec le mapping approprié.");
             EvPrint (u "✅ Connexion Elasticsearch établie")],
            Return (Some (search es)))) ∧
  (∀ e, (_init_elasticsearch new_client).2 = Raise e → is_Exception e = false).
Proof.
  rewrite _init_elasticsearch_cases. split; [|split].
  - intros client. split.
    + destruct new_client as [es|e];
        [|intros H; by apply connection_failure_no_client in H].
      destruct (ping es) as [[|]|e] eqn:Hping;
        [| intros H; by apply connection_failure_no_client in H
         | intros H; by apply connection_failure_no_client in H].
      destruct (indices_exists es _) as [present|e] eqn:Hindex;
        [|intros H; by apply connection_failure_no_client in H].
      cbn [snd]. intros [= <-]. exists es.
      split; [reflexivity|]. split; [exact Hping|]. split; [by exists present|].
      reflexivity.
    + intros (es & -> & Hping & [present Hindex] & ->).
      by rewrite Hping, Hindex.
  - intros es -> Hping Hindex. by rewrite Hping, Hindex.
  - intros e. destruct new_client as [es|e0]; [|apply connection_failure_raises].
    destruct (ping es) as [[|]|e0]; [| apply connection_failure_raises
                                     | apply connection_failure_raises].
    destruct (indices_exists es _) as [present|e0];
      [discriminate | apply connection_failure_raises].
Qed.

(** X13. When the connection fails at start, the construction goes on
    without client.  The embedder and the LLM are then built, unguarded: an
    exception of either ends the construction, and there is no assistant.
    When both are built, the assistant is built without client; it then
    answers every in-domain query with the not-found message, after
    printing that the search failed, and sends no request. *)
Theorem failed_connection_gives_not_found (lower : str → str)
    (new_client : outcome es_client) (new_embedder new_llm : outcome unit)
    (query : str) :
  (_init_elasticsearch new_client).2 = Return None →
  in_domain lower query →
  (new_assistant lower new_client new_embedder new_llm).2 =
    match new_embedder, new_llm with
    | Return _, Return _ => Return (__init__ lower None)
    | Return _, Raise e => Raise e
    | Raise e, _ => Raise e
    end ∧
  recherche_fiscale lower (__init__ lower None) query =
    ([search_error_line (u "'NoneType' object has no attribute 'search'")],
     Return aucune_information).
Proof.
  intros Hinit Hdomain. split.
  - unfold new_assistant, _init_embedder, _init_llm, io_call, mbind, io_mbind,
      io_bind.
    destruct (_init_elasticsearch new_client) as [tr r]. cbn [snd] in Hinit.
    subst r. by destruct new_embedder as [[]|e], new_llm as [[]|e'].
  - apply (no_candidate_not_found lower (__init__ lower None) query _ (Some 0%Q)
             Hdomain).
    by apply _get_contextual_results_offline.
Qed.

Lemma failed_connection_gives_not_found_witness :
  (_init_elasticsearch (Return client_unreachable)).2 = Return None ∧
  (new_assistant lower_latin1 (Return client_unreachable) (Return tt)
     (Raise (Exception (u "GROQ_API_KEY is not set")))).2
    = Raise (Exception (u "GROQ_API_KEY is not set")) ∧
  recherche_fiscale lower_latin1 assistant_offline (u "tva") =
    ([search_error_line (u "'NoneType' object has no attribute 'search'")],
     Return aucune_information).
Proof.
  assert ((_init_elasticsearch (Return client_unreachable)).2 = Return None)
    as Hinit by reflexivity.
  split; [exact Hinit|].
  apply (failed_connection_gives_not_found lower_latin1
           (Return client_unreachable) (Return tt)
           (Raise (Exception (u "GROQ_API_KEY is not set"))) (u "tva") Hinit).
  split; [apply no_token_any | apply has_token_any]; vm_compute; reflexivity.
Defined.

(** With the embedder and the LLM built, the assistant of a failed
    connection is the one without client. *)
Example assistant_of_a_failed_connection :
  (new_assistant lower_latin1 (Return client_unreachable) (Return tt) (Return tt)).2
    = Return assistant_offline.
Proof. reflexivity. Qed.

(** ** The console loop: what a session never changes *)

Section SessionInvariants.

Variable lower : str → str.
Context {Agent : Type}.
Variable agent_call : Agent → str → list event * Agent * agent_result.

Lemma run_iteration_keeps_client (line : outcome str)
    (self : PremiumFiscalAssistant Agent) :
  es (run_iteration lower agent_call line self).1.2 = es self ∧
  last_query (run_iteration lower agent_call line self).1.2 = last_query self.
Proof.
  loop_unfold. destruct line as [raw | [| |]]; cbn iota beta; try done.
  destruct (list_in _ [u "exit"; _; _]); [done|].
  destruct (list_in _ [u "vider cache"; _]); [done|].
  destruct (any _ _); [done|]. cbn iota beta.
  by destruct (agent_call _ _) as [[tr agent'] [output|msg|]].
Qed.

Lemma run_loop_keeps_client (script : list (outcome str))
    (self : PremiumFiscalAssistant Agent) :
  es (run_loop lower agent_call script self).1.2 = es self ∧
  last_query (run_loop lower agent_call script self).1.2 = last_query self.
Proof.
  revert self. induction script as [|line script IH]; intros self; [done|].
  cbn [run_loop]. unfold mbind, method_mbind, method_bind.
  destruct (run_iteration_keeps_client line self) as [Hes Hlast].
  destruct (run_iteration lower agent_call line self) as [[tr self'] [ctl|e]];
    cbn [fst snd] in Hes, Hlast; [|done].
  destruct ctl; [done|].
  destruct (IH self') as [Hes' Hlast'].
  destruct (run_loop lower agent_call script self') as [[tr' self''] r].
  cbn [fst snd] in *. split; congruence.
Qed.

(** X14. A session never replaces the search client and never sets
    [last_query]: whatever is typed and whatever fails, the object ends
    with the client it started with.  An assistant that started without
    connection stays without it; there is no reconnection. *)
Theorem session_keeps_client (script : list (outcome str))
    (self : PremiumFiscalAssistant Agent) :
  es (run lower agent_call script self).1.2 = es self ∧
  last_query (run lower agent_call script self).1.2 = last_query self.
Proof.
  unfold run, mbind, method_mbind, method_bind, lift, print, io_emit.
  cbn iota beta. destruct (run_loop_keeps_client script self) as [Hes Hlast].
  by destruct (run_loop lower agent_call script self) as [[tr self'] r].
Qed.

End SessionInvariants.

(** ** Further concrete runs *)

(** A service that is down: the request is sent, the error line carries
    the text of the exception, and nothing is returned. *)
Example engine_on_a_service_that_is_down :
  _get_contextual_results assistant_down (u "tva") =
    ([EvSearch (contextual_request (u "tva"));
      search_error_line (u "Connection timed out")],
     Return ([], Some 0%Q)).
Proof. vm_compute. reflexivity. Qed.

(** A server without the index: the warning, then the connection. *)
Example connection_without_the_index :
  (_init_elasticsearch (Return client_without_index)).1 =
    [EvPrint (u "⚠️ L'index 'assistant_fiscal_v2' n'existe pas. Créez-le avec le mapping approprié.");
     EvPrint (u "✅ Connexion Elasticsearch établie")] ∧
  (_init_elasticsearch (Return client_without_index)).2 = Return (Some es_down).
Proof. split; [vm_compute; reflexivity | reflexivity]. Qed.
